(** * acc-engine: a double-entry ledger engine

    Shallow embedding of [src/index.mjs] (posting and voiding engine,
    account-hierarchy validator, balance and reporting aggregator,
    opening-balance orchestrator) and proofs of the properties its
    specification states.

    Modelling conventions.
    - A JavaScript [number] is an IEEE 754 binary64 value, a primitive
      [float]: [+], [-], [*] and [/] round to nearest, ties to even, as in
      the source; [NaN], the infinities and the two zeros are values;
      [===], [<] and [>] on numbers are the IEEE comparisons.  Where a
      statement speaks of the exact value of a number, it is the rational
      [exact x].
    - The MongoDB collections are lists in insertion order.  [ObjectId]s are
      natural numbers drawn from a counter, so that [_id] order is insertion
      order.  [$sum] adds the values in document order, starting from 0.
      Storage failures ([DatabaseError]) and the optional session are not
      modelled: every write applies at once.
    - An exception is a [Throw] result that carries the store reached at the
      point of the throw (there is no rollback in the source).
    - Error values carry their class only; the message text is dropped.
    - [localeCompare] depends on the collation of the host; the operations
      that call it take it as an argument. *)

From Stdlib Require Import List String Ascii Bool Arith ZArith QArith Qpower Floats Lia Lqa
  Permutation Sorted.
Import ListNotations.

Set Warnings "-inexact-float".

Local Open Scope string_scope.
Local Open Scope list_scope.
Local Open Scope float_scope.

(** ** Errors (src/errors.ts) *)

Inductive error : Type :=
| ValidationError
| AccountNotFoundError
| DoubleEntryError
| PlainError.

(** ** Numbers (src/utils.ts) *)

(** The type of JavaScript numbers. *)
Abbreviation number := float (only parsing).

(** [Number.EPSILON], 2^-52. *)
Definition EPSILON : number := 0x1p-52.

(** A natural number below 2^53 as a [number]. *)
Definition of_Z (n : Z) : number := PrimFloat.of_uint63 (Uint63.of_Z n).

(** [Math.round]: the nearest integer, halves towards plus infinity; [NaN],
    the infinities, the zeros and the integers are returned as they are,
    and a negative number that rounds to zero gives [-0].  The integer is
    computed from the exact value [±m * 2^e] of the argument. *)
Definition Math_round (x : number) : number :=
  match Prim2SF x with
  | S754_finite s m e =>
      if (0 <=? e)%Z then x
      else
        let k := Z.opp e in
        let n := (((if s then -2 else 2) * Z.pos m + 2 ^ k) / 2 ^ (k + 1))%Z in
        if (n =? 0)%Z then (if s then -0 else 0)
        else if (n <? 0)%Z then - of_Z (- n) else of_Z n
  | _ => x
  end.

Definition round (num : number) : number :=
  Math_round ((num + EPSILON) * 100) / 100.

Definition Math_abs (x : number) : number := abs x.

(** [x < 0], [x > 0] and [x === y] on numbers. *)
Definition num_lt0 (x : number) : bool := x <? 0.
Definition num_gt0 (x : number) : bool := 0 <? x.
Definition num_eq (x y : number) : bool := x =? y.

(** [Number.isNaN]. *)
Definition Number_isNaN (x : number) : bool := is_nan x.

(** [x || 0] for an optional number: [undefined], [null], [NaN] and the
    zeros are falsy. *)
Definition or0 (x : option number) : number :=
  match x with
  | Some q => if num_eq q 0 || Number_isNaN q then 0 else q
  | None => 0
  end.

(** Truthiness of an optional string: [undefined], [null] and the empty
    string are falsy. *)
Definition truthy (s : option string) : bool :=
  match s with
  | Some s => negb (String.eqb s "")
  | None => false
  end.

(** ** Data model (type declarations of the package) *)

Definition ObjectId := nat.
Bind Scope nat_scope with ObjectId.
(** A [Date] is its time value, milliseconds since the epoch. *)
Definition Date := Z.
Bind Scope Z_scope with Date.
(** An open attribute bag, [Record<string, any>]. *)
Definition Bag := list (string * string).

Inductive AccountType : Type :=
| t_asset | t_liability | t_equity | t_income | t_expense | t_contra.

Inductive AccountParentGroup : Type :=
| g_asset | g_liability | g_equity | g_income | g_expense.

Inductive AccountOrigin : Type :=
| systemSeeded | dynamicSystem | userCreated.

Record Account : Type := mkAccount {
  a_id : ObjectId;
  a_key : string;
  a_code : string;
  a_name : string;
  a_type : AccountType;
  a_parentGroup : AccountParentGroup;
  a_group : string;
  a_origin : option AccountOrigin;
  a_isActive : bool;
  a_parentAccountKey : option string;
  a_extra : Bag;
  a_createdAt : Date;
  a_updatedAt : Date
}.

Record Journal : Type := mkJournal {
  j_id : ObjectId;
  j_memo : string;
  j_datetime : Date;
  j_referenceType : option string;
  j_referenceId : option string;
  j_voided : bool;
  j_voidReason : option string;
  j_createdAt : Date;
  j_updatedAt : Date
}.

Record TransactionLine : Type := mkTransactionLine {
  t_id : ObjectId;
  t_journalId : ObjectId;
  t_accountKey : string;
  t_accountCode : string;
  t_debit : number;
  t_credit : number;
  t_meta : option Bag;
  t_datetime : Date;
  t_voided : bool;
  t_createdAt : Date;
  t_updatedAt : Date
}.

Record TransactionLineInput : Type := mkLineInput {
  li_accountKey : string;
  li_debit : option number;
  li_credit : option number;
  li_meta : option Bag
}.

Record PostJournalInput : Type := mkPostJournalInput {
  pj_memo : option string;
  pj_datetime : option Date;
  pj_referenceType : option string;
  pj_referenceId : option string;
  pj_lines : option (list TransactionLineInput)
}.

Record PostJournalResult : Type := mkPostJournalResult {
  r_journal : Journal;
  r_transactions : list TransactionLine
}.

(** ** The store and the monad of operations *)

(** The three collections [acct_accounts], [acct_journals] and
    [acct_transactions], the [ObjectId] counter and the clock read by
    [new Date()]. *)
Record Store : Type := mkStore {
  accounts : list Account;
  journals : list Journal;
  transactions : list TransactionLine;
  next_oid : ObjectId;
  clock : Date
}.

Inductive result (A : Type) : Type :=
| Ok (a : A)
| Throw (e : error).
Arguments Ok {A} a.
Arguments Throw {A} e.

Definition M (A : Type) : Type := Store -> result A * Store.

Definition ret {A} (a : A) : M A := fun s => (Ok a, s).
Definition throw {A} (e : error) : M A := fun s => (Throw e, s).
Definition bind {A B} (m : M A) (k : A -> M B) : M B :=
  fun s => match m s with
           | (Ok a, s') => k a s'
           | (Throw e, s') => (Throw e, s')
           end.

Declare Scope op_scope.
Delimit Scope op_scope with op.
Notation "x <- m ;; k" := (bind m (fun x => k))
  (at level 100, m at next level, right associativity) : op_scope.
Notation "m ;;; k" := (bind m (fun _ => k))
  (at level 100, right associativity) : op_scope.
Local Open Scope op_scope.

Definition get_store : M Store := fun s => (Ok s, s).
Definition when_throw (b : bool) (e : error) : M unit :=
  if b then throw e else ret tt.

(** [new Date()] and [new ObjectId()]. *)
Definition new_Date : M Date := fun s => (Ok (clock s), s).
Definition new_ObjectId : M ObjectId :=
  fun s => (Ok (next_oid s),
            mkStore (accounts s) (journals s) (transactions s) (S (next_oid s)) (clock s)).

Fixpoint mapM {A B} (f : A -> M B) (l : list A) : M (list B) :=
  match l with
  | [] => ret []
  | x :: l' => y <- f x ;; ys <- mapM f l' ;; ret (y :: ys)
  end.

(** *** Collection primitives *)

Definition set_accounts (f : list Account -> list Account) : M unit :=
  fun s => (Ok tt, mkStore (f (accounts s)) (journals s) (transactions s) (next_oid s) (clock s)).
Definition set_journals (f : list Journal -> list Journal) : M unit :=
  fun s => (Ok tt, mkStore (accounts s) (f (journals s)) (transactions s) (next_oid s) (clock s)).
Definition set_transactions (f : list TransactionLine -> list TransactionLine) : M unit :=
  fun s => (Ok tt, mkStore (accounts s) (journals s) (f (transactions s)) (next_oid s) (clock s)).

(** [findOneAndUpdate]: the first document matching [p] is replaced by its
    image under [f]; the result says which document matched. *)
Fixpoint update_first {A} (p : A -> bool) (f : A -> A) (l : list A) : option A * list A :=
  match l with
  | [] => (None, [])
  | x :: l' =>
      if p x then (Some x, f x :: l')
      else let (r, l'') := update_first p f l' in (r, x :: l'')
  end.

(** [updateMany]. *)
Definition update_many {A} (p : A -> bool) (f : A -> A) (l : list A) : list A :=
  map (fun x => if p x then f x else x) l.

(** A JavaScript [Map] with string keys, in insertion order. *)
Fixpoint map_set {V} (k : string) (v : V) (m : list (string * V)) : list (string * V) :=
  match m with
  | [] => [(k, v)]
  | (k', v') :: m' =>
      if String.eqb k' k then (k, v) :: m' else (k', v') :: map_set k v m'
  end.

Fixpoint map_get {V} (k : string) (m : list (string * V)) : option V :=
  match m with
  | [] => None
  | (k', v') :: m' => if String.eqb k' k then Some v' else map_get k m'
  end.

Definition map_has {V} (k : string) (m : list (string * V)) : bool :=
  match map_get k m with Some _ => true | None => false end.

(** A JavaScript [Set] of strings, in insertion order. *)
Definition set_has (k : string) (l : list string) : bool :=
  existsb (String.eqb k) l.
Definition set_add (k : string) (l : list string) : list string :=
  if set_has k l then l else l ++ [k].

(** ** Journal posting engine (src/journal) *)

(** The body of the [forEach] over the lines of [postJournal]: the running
    totals and the set of account keys, or the error of the first bad line. *)
Record LineAcc : Type := mkLineAcc {
  totalDebit : number;
  totalCredit : number;
  accountKeys : list string
}.

Definition check_line (acc : LineAcc) (line : TransactionLineInput) : error + LineAcc :=
  let debit := or0 (li_debit line) in
  let credit := or0 (li_credit line) in
  if num_lt0 debit || num_lt0 credit then inl ValidationError
  else if num_eq debit 0 && num_eq credit 0 then inl ValidationError
  else if num_gt0 debit && num_gt0 credit then inl ValidationError
  else inr (mkLineAcc (totalDebit acc + debit) (totalCredit acc + credit)
                      (set_add (li_accountKey line) (accountKeys acc))).

Fixpoint check_lines (acc : LineAcc) (lines : list TransactionLineInput) : error + LineAcc :=
  match lines with
  | [] => inr acc
  | line :: rest =>
      match check_line acc line with
      | inl e => inl e
      | inr acc' => check_lines acc' rest
      end
  end.

Definition lines_of (data : PostJournalInput) : list TransactionLineInput :=
  match pj_lines data with Some l => l | None => [] end.

Definition account_map (accts : list Account) : list (string * Account) :=
  fold_left (fun m a => map_set (a_key a) a m) accts [].

Definition transactionDoc (accountMap : list (string * Account)) (journalId : ObjectId)
    (datetime now : Date) (line : TransactionLineInput) : M TransactionLine :=
  match map_get (li_accountKey line) accountMap with
  | None => throw PlainError
  | Some account =>
      id <- new_ObjectId ;;
      ret (mkTransactionLine id journalId (li_accountKey line) (a_code account)
             (or0 (li_debit line)) (or0 (li_credit line)) (li_meta line)
             datetime false now now)
  end.

Definition postJournal (data : PostJournalInput) : M PostJournalResult :=
  when_throw (match pj_lines data with
              | None => true
              | Some l => (List.length l <? 2)%nat
              end) ValidationError ;;;
  match pj_datetime data with
  | None => throw ValidationError
  | Some datetime =>
  match pj_memo data with
  | None => throw ValidationError
  | Some memo =>
  when_throw (negb (truthy (Some memo))) ValidationError ;;;
  match check_lines (mkLineAcc 0 0 []) (lines_of data) with
  | inl e => throw e
  | inr acc =>
  when_throw (negb (num_eq (round (totalDebit acc)) (round (totalCredit acc))))
             DoubleEntryError ;;;
  s <- get_store ;;
  let accts := filter (fun a => set_has (a_key a) (accountKeys acc)) (accounts s) in
  let accountMap := account_map accts in
  let missingKeys := filter (fun k => negb (map_has k accountMap)) (accountKeys acc) in
  when_throw (0 <? List.length missingKeys)%nat AccountNotFoundError ;;;
  let inactive := filter (fun a => negb (a_isActive a)) accts in
  when_throw (0 <? List.length inactive)%nat ValidationError ;;;
  now <- new_Date ;;
  journalId <- new_ObjectId ;;
  let journalDoc :=
    mkJournal journalId memo datetime (pj_referenceType data) (pj_referenceId data)
              false None now now in
  transactionDocs <- mapM (transactionDoc accountMap journalId datetime now) (lines_of data) ;;
  set_journals (fun js => js ++ [journalDoc]) ;;;
  set_transactions (fun ts => ts ++ transactionDocs) ;;;
  ret (mkPostJournalResult journalDoc transactionDocs)
  end end end.

(** [findOneAndUpdate] on the journals and on the accounts: one atomic
    match-then-set, returning the matched document or [null]. *)
Definition findOneAndUpdate_journal (p : Journal -> bool) (f : Journal -> Journal)
    : M (option Journal) :=
  fun s => let (r, js) := update_first p f (journals s) in
           (Ok r, mkStore (accounts s) js (transactions s) (next_oid s) (clock s)).

Definition findOneAndUpdate_account (p : Account -> bool) (f : Account -> Account)
    : M (option Account) :=
  fun s => let (r, l) := update_first p f (accounts s) in
           (Ok r, mkStore l (journals s) (transactions s) (next_oid s) (clock s)).

Definition set_journal_voided (reason : string) (now : Date) (j : Journal) : Journal :=
  mkJournal (j_id j) (j_memo j) (j_datetime j) (j_referenceType j) (j_referenceId j)
            true (Some reason) (j_createdAt j) now.

Definition set_transaction_voided (now : Date) (t : TransactionLine) : TransactionLine :=
  mkTransactionLine (t_id t) (t_journalId t) (t_accountKey t) (t_accountCode t)
                    (t_debit t) (t_credit t) (t_meta t) (t_datetime t)
                    true (t_createdAt t) now.

Definition voidJournal (journalId : ObjectId) (reason : string) : M bool :=
  now <- new_Date ;;
  result <- findOneAndUpdate_journal
              (fun j => (j_id j =? journalId)%nat && negb (j_voided j))
              (set_journal_voided reason now) ;;
  match result with
  | None => throw ValidationError
  | Some _ =>
      now' <- new_Date ;;
      set_transactions
        (update_many (fun t => (t_journalId t =? journalId)%nat)
                     (set_transaction_voided now')) ;;;
      ret true
  end.

Definition getJournal (journalId : ObjectId) : M (option PostJournalResult) :=
  s <- get_store ;;
  match find (fun j => (j_id j =? journalId)%nat) (journals s) with
  | None => ret None
  | Some journal =>
      ret (Some (mkPostJournalResult journal
                   (filter (fun t => (t_journalId t =? journalId)%nat) (transactions s))))
  end.

(** Modelled from the spec: [voidJournalsByIdentifier] is declared by the
    package (with its result type [VoidJournalResult]) but its body is not
    among the sources.  Section 4.2: bulk void by [journalId] or by
    [(referenceType, referenceId)]; reports counts of journals and entries
    voided; voiding zero matches is not an error. *)
Inductive JournalIdentifier : Type :=
| ByJournalId (journalId : ObjectId)
| ByReference (referenceType referenceId : string).

Record VoidJournalResult : Type := mkVoidJournalResult {
  journalsVoided : nat;
  transactionsVoided : nat
}.

Definition opt_eqb (o : option string) (s : string) : bool :=
  match o with Some s' => String.eqb s' s | None => false end.

Definition identifies (identifier : JournalIdentifier) (j : Journal) : bool :=
  match identifier with
  | ByJournalId id => (j_id j =? id)%nat
  | ByReference rt rid => opt_eqb (j_referenceType j) rt && opt_eqb (j_referenceId j) rid
  end.

Definition voidJournalsByIdentifier (identifier : JournalIdentifier) (reason : string)
    : M VoidJournalResult :=
  now <- new_Date ;;
  s <- get_store ;;
  let selected j := identifies identifier j && negb (j_voided j) in
  let ids := map j_id (filter selected (journals s)) in
  let cascade t := existsb (Nat.eqb (t_journalId t)) ids && negb (t_voided t) in
  set_journals (update_many selected (set_journal_voided reason now)) ;;;
  set_transactions (update_many cascade (set_transaction_voided now)) ;;;
  ret (mkVoidJournalResult (List.length ids)
                           (List.length (filter cascade (transactions s)))).

(** ** Account hierarchy manager (src/accounts) *)

Definition OPENING_BALANCE_REFERENCE_TYPE : string := "opening_balance".

Definition DEFAULT_OPENING_BALANCE_ACCOUNT (id : ObjectId) (now : Date) : Account :=
  mkAccount id "OPENING_BALANCE_EQUITY" "3999" "Opening Balance Equity"
            t_equity g_equity "Opening Balance" (Some dynamicSystem) true None
            [("system", "true")] now now.

Record CreateAccountInput : Type := mkCreateAccountInput {
  ca_key : option string;
  ca_code : option string;
  ca_name : option string;
  ca_type : option AccountType;
  ca_parentGroup : option AccountParentGroup;
  ca_group : option string;
  ca_origin : option AccountOrigin;
  ca_parentAccountKey : option string;
  ca_extra : option Bag
}.

Record UpdateAccountInput : Type := mkUpdateAccountInput {
  ua_key : option string;
  ua_name : option string;
  ua_group : option string;
  ua_isActive : option bool;
  ua_extra : option Bag;
  (** [None] is [undefined], [Some None] is [null]. *)
  ua_parentAccountKey : option (option string)
}.

(** [isNaN(parseInt(s, 10))]: [parseInt] skips leading white space and one
    sign, then reads decimal digits up to the first other character; it is
    [NaN] when there is no digit to read.  (White space outside ASCII is
    not modelled.) *)
Definition is_white_space (c : ascii) : bool :=
  let n := nat_of_ascii c in
  ((9 <=? n) && (n <=? 13) || (n =? 32))%nat.

Definition is_digit (c : ascii) : bool :=
  let n := nat_of_ascii c in ((48 <=? n) && (n <=? 57))%nat.

Fixpoint skip_white_space (s : string) : string :=
  match s with
  | String c s' => if is_white_space c then skip_white_space s' else s
  | EmptyString => s
  end.

Definition skip_sign (s : string) : string :=
  match s with
  | String c s' => if (Ascii.eqb c "+" || Ascii.eqb c "-")%char then s' else s
  | EmptyString => s
  end.

Definition parseInt_isNaN (s : string) : bool :=
  match skip_sign (skip_white_space s) with
  | String c _ => negb (is_digit c)
  | EmptyString => true
  end.

Definition AccountType_eqb (x y : AccountType) : bool :=
  match x, y with
  | t_asset, t_asset | t_liability, t_liability | t_equity, t_equity
  | t_income, t_income | t_expense, t_expense | t_contra, t_contra => true
  | _, _ => false
  end.

Definition AccountParentGroup_eqb (x y : AccountParentGroup) : bool :=
  match x, y with
  | g_asset, g_asset | g_liability, g_liability | g_equity, g_equity
  | g_income, g_income | g_expense, g_expense => true
  | _, _ => false
  end.

(** [data.type === t] and [data.parentGroup === g] on a possibly missing
    field. *)
Definition type_is (o : option AccountType) (t : AccountType) : bool :=
  match o with Some t' => AccountType_eqb t' t | None => false end.

Definition group_is (o : option AccountParentGroup) (g : AccountParentGroup) : bool :=
  match o with Some g' => AccountParentGroup_eqb g' g | None => false end.

Definition is_some {A} (o : option A) : bool :=
  match o with Some _ => true | None => false end.

(** The chain of [startsWith] tests on the code has empty branches and is
    left out. *)
Definition validateAccountStructure (data : CreateAccountInput) : M unit :=
  when_throw (negb (truthy (ca_key data)) || negb (truthy (ca_code data))
              || negb (truthy (ca_name data)) || negb (is_some (ca_type data))
              || negb (is_some (ca_parentGroup data)) || negb (truthy (ca_group data)))
             ValidationError ;;;
  when_throw (match ca_code data with Some c => parseInt_isNaN c | None => true end)
             ValidationError ;;;
  when_throw (type_is (ca_type data) t_asset && negb (group_is (ca_parentGroup data) g_asset))
             ValidationError ;;;
  when_throw (type_is (ca_type data) t_liability
              && negb (group_is (ca_parentGroup data) g_liability))
             ValidationError ;;;
  when_throw (type_is (ca_type data) t_equity && negb (group_is (ca_parentGroup data) g_equity))
             ValidationError ;;;
  when_throw (type_is (ca_type data) t_income && negb (group_is (ca_parentGroup data) g_income))
             ValidationError ;;;
  when_throw (type_is (ca_type data) t_expense
              && negb (group_is (ca_parentGroup data) g_expense))
             ValidationError ;;;
  when_throw (type_is (ca_type data) t_contra
              && negb (group_is (ca_parentGroup data) g_asset
                       || group_is (ca_parentGroup data) g_liability))
             ValidationError.

Definition findAccount (key : string) (accts : list Account) : option Account :=
  find (fun a => String.eqb (a_key a) key) accts.

Definition MAX_DEPTH : nat := 100.

(** The [while] loop of [validateParent].  [fuel] only makes the recursion
    structural: the loop leaves by itself once [depth] exceeds [MAX_DEPTH]
    (see [walk_fuel]). *)
Inductive walk_result : Type := Circular | Stopped | OutOfFuel.

Fixpoint validateParent_walk (fuel : nat) (accts : list Account) (accountKey : string)
    (currentKey : option string) (visited : list string) (depth : nat) : walk_result :=
  match fuel with
  | O => OutOfFuel
  | S fuel' =>
      match currentKey with
      | None => Stopped
      | Some ck =>
          if String.eqb ck "" then Stopped
          else if String.eqb ck accountKey then Circular
          else if set_has ck visited then Stopped
          else
            match findAccount ck accts with
            | None => Stopped
            | Some node =>
                if (MAX_DEPTH <? S depth)%nat then Stopped
                else validateParent_walk fuel' accts accountKey
                       (a_parentAccountKey node) (set_add ck visited) (S depth)
            end
      end
  end.

Definition validateParent (accountKey : string) (parentKey : option string) : M unit :=
  match parentKey with
  | None => ret tt
  | Some pk =>
      if String.eqb pk "" then ret tt
      else if String.eqb accountKey pk then throw ValidationError
      else
        s <- get_store ;;
        match findAccount pk (accounts s) with
        | None => throw ValidationError
        | Some parent =>
            match validateParent_walk (S (S MAX_DEPTH)) (accounts s) accountKey
                    (a_parentAccountKey parent) [pk] 0 with
            | Circular => throw ValidationError
            | Stopped => ret tt
            | OutOfFuel => throw PlainError
            end
        end
  end.

Definition isDebitNormal (account : Account) : bool :=
  AccountParentGroup_eqb (a_parentGroup account) g_asset
  || AccountParentGroup_eqb (a_parentGroup account) g_expense
  || AccountType_eqb (a_type account) t_contra
     && AccountParentGroup_eqb (a_parentGroup account) g_liability.

Definition insertOne_account (doc : Account) : M unit :=
  set_accounts (fun l => l ++ [doc]).

Definition ensureOpeningBalanceOffsetAccount (offsetKey : option string) : M Account :=
  let keyToLookup :=
    match offsetKey with
    | Some k => if String.eqb k "" then "OPENING_BALANCE_EQUITY" else k
    | None => "OPENING_BALANCE_EQUITY"
    end in
  s <- get_store ;;
  match findAccount keyToLookup (accounts s) with
  | Some existing => ret existing
  | None =>
      if truthy offsetKey then throw ValidationError
      else
        now <- new_Date ;;
        id <- new_ObjectId ;;
        let doc := DEFAULT_OPENING_BALANCE_ACCOUNT id now in
        insertOne_account doc ;;;
        ret doc
  end.

Definition voidExistingOpeningBalance (accountKey : string) : M unit :=
  s <- get_store ;;
  match find (fun j => opt_eqb (j_referenceType j) OPENING_BALANCE_REFERENCE_TYPE
                       && opt_eqb (j_referenceId j) accountKey
                       && negb (j_voided j)) (journals s) with
  | Some existing => voidJournal (j_id existing) "Updated opening balance" ;;; ret tt
  | None => ret tt
  end.

Definition createAccount (data : CreateAccountInput) : M Account :=
  validateAccountStructure data ;;;
  s <- get_store ;;
  when_throw (match ca_parentAccountKey data with
              | Some pk =>
                  negb (String.eqb pk "") && negb (is_some (findAccount pk (accounts s)))
              | None => false
              end) ValidationError ;;;
  when_throw (existsb (fun a => opt_eqb (ca_key data) (a_key a)
                                || opt_eqb (ca_code data) (a_code a)) (accounts s))
             ValidationError ;;;
  now <- new_Date ;;
  id <- new_ObjectId ;;
  match ca_key data, ca_code data, ca_name data, ca_type data,
        ca_parentGroup data, ca_group data with
  | Some key, Some code, Some name, Some type, Some parentGroup, Some group =>
      let doc :=
        mkAccount id key code name type parentGroup group (ca_origin data) true
                  (if truthy (ca_parentAccountKey data) then ca_parentAccountKey data
                   else None)
                  (match ca_extra data with Some e => e | None => [] end)
                  now now in
      insertOne_account doc ;;;
      ret doc
  | _, _, _, _, _, _ => throw ValidationError
  end.

(** The [$set] of [updateAccount]: the fields of the input that are not
    [undefined], and [updatedAt]. *)
Definition apply_update (data : UpdateAccountInput) (now : Date) (a : Account) : Account :=
  mkAccount (a_id a) (a_key a) (a_code a)
            (match ua_name data with Some n => n | None => a_name a end)
            (a_type a) (a_parentGroup a)
            (match ua_group data with Some g => g | None => a_group a end)
            (a_origin a)
            (match ua_isActive data with Some b => b | None => a_isActive a end)
            (match ua_parentAccountKey data with Some p => p | None => a_parentAccountKey a end)
            (match ua_extra data with Some e => e | None => a_extra a end)
            (a_createdAt a) now.

Definition updateAccount (data : UpdateAccountInput) : M Account :=
  match ua_key data with
  | None => throw ValidationError
  | Some key =>
      when_throw (String.eqb key "") ValidationError ;;;
      now <- new_Date ;;
      match ua_parentAccountKey data with
      | Some parentKey => validateParent key parentKey
      | None => ret tt
      end ;;;
      result <- findOneAndUpdate_account (fun a => String.eqb (a_key a) key)
                                         (apply_update data now) ;;
      match result with
      | None => throw AccountNotFoundError
      | Some before => ret (apply_update data now before)
      end
  end.

Definition deactivateAccount (key : string) : M Account :=
  updateAccount (mkUpdateAccountInput (Some key) None None (Some false) None None).

Record ApplyOpeningBalanceInput : Type := mkApplyOpeningBalanceInput {
  ob_accountKey : string;
  ob_amount : option number;
  ob_datetime : option Date;
  ob_memo : option string;
  ob_offsetAccountKey : option string;
  ob_meta : option Bag
}.

Definition applyOpeningBalance (data : ApplyOpeningBalanceInput)
    : M (option PostJournalResult) :=
  match ob_amount data with
  | None => throw ValidationError
  | Some amount0 =>
      when_throw (Number_isNaN amount0) ValidationError ;;;
      s <- get_store ;;
      match findAccount (ob_accountKey data) (accounts s) with
      | None => throw AccountNotFoundError
      | Some account =>
          when_throw (negb (a_isActive account)) ValidationError ;;;
          voidExistingOpeningBalance (ob_accountKey data) ;;;
          let amount := round amount0 in
          if num_eq amount 0 then ret None
          else
            offsetAccount <- ensureOpeningBalanceOffsetAccount (ob_offsetAccountKey data) ;;
            let debitNormal := isDebitNormal account in
            let absAmount := Math_abs amount in
            let accountDebit :=
              if num_gt0 amount then (if debitNormal then absAmount else 0)
              else (if debitNormal then 0 else absAmount) in
            let accountCredit :=
              if num_gt0 amount then (if debitNormal then 0 else absAmount)
              else (if debitNormal then absAmount else 0) in
            let memo := if truthy (ob_memo data) then ob_memo data
                        else Some ("Opening balance for " ++ a_name account)%string in
            now <- new_Date ;;
            let datetime := match ob_datetime data with Some d => d | None => now end in
            r <- postJournal
                   (mkPostJournalInput memo (Some datetime)
                      (Some OPENING_BALANCE_REFERENCE_TYPE) (Some (a_key account))
                      (Some [ mkLineInput (a_key account) (Some (round accountDebit))
                                (Some (round accountCredit)) (ob_meta data);
                              mkLineInput (a_key offsetAccount) (Some (round accountCredit))
                                (Some (round accountDebit))
                                (Some (map_set "offsetFor" (a_key account)
                                         (match ob_meta data with
                                          | Some m => m
                                          | None => []
                                          end))) ])) ;;
            ret (Some r)
      end
  end.

(** ** Balance and reporting aggregator (src/reports) *)

Definition getNetBalance (debit credit : number) (type : AccountType)
    (parentGroup : AccountParentGroup) : number :=
  let isDebitNormal2 :=
    AccountParentGroup_eqb parentGroup g_asset
    || AccountParentGroup_eqb parentGroup g_expense
    || AccountType_eqb type t_contra && AccountParentGroup_eqb parentGroup g_liability in
  if isDebitNormal2 then round (debit - credit) else round (credit - debit).

(** The [datetime] part of a [$match]: [$gte from] and [$lte to], each when
    given. *)
Definition in_range (from to : option Date) (d : Date) : bool :=
  match from with Some f => (f <=? d)%Z | None => true end
  && match to with Some t => (d <=? t)%Z | None => true end.

(** The [meta.k = v] equalities of a [$match]. *)
Definition meta_matches (metaFilter : option Bag) (t : TransactionLine) : bool :=
  match metaFilter with
  | None => true
  | Some f =>
      forallb (fun kv => match t_meta t with
                         | Some m => opt_eqb (map_get (fst kv) m) (snd kv)
                         | None => false
                         end) f
  end.

(** [$sum]. *)
Definition sum_of {A} (f : A -> number) (l : list A) : number :=
  fold_left (fun acc x => acc + f x) l 0.

Record AccountBalanceResult : Type := mkAccountBalanceResult {
  balance : number;
  debit : number;
  credit : number
}.

Record BalanceQuery : Type := mkBalanceQuery {
  bq_accountKey : string;
  bq_from : option Date;
  bq_to : option Date;
  bq_metaFilter : option Bag
}.

Definition balance_match (data : BalanceQuery) (t : TransactionLine) : bool :=
  String.eqb (t_accountKey t) (bq_accountKey data)
  && negb (t_voided t)
  && in_range (bq_from data) (bq_to data) (t_datetime t)
  && meta_matches (bq_metaFilter data) t.

Definition getAccountBalance (data : BalanceQuery) : M AccountBalanceResult :=
  s <- get_store ;;
  let matched := filter (balance_match data) (transactions s) in
  match matched with
  | [] => ret (mkAccountBalanceResult 0 0 0)
  | _ :: _ =>
      let debit := sum_of t_debit matched in
      let credit := sum_of t_credit matched in
      match findAccount (bq_accountKey data) (accounts s) with
      | None => throw PlainError
      | Some account =>
          ret (mkAccountBalanceResult
                 (getNetBalance debit credit (a_type account) (a_parentGroup account))
                 (round debit) (round credit))
      end
  end.

Record LedgerQuery : Type := mkLedgerQuery {
  lq_accountKey : string;
  lq_from : option Date;
  lq_to : option Date;
  lq_metaFilter : option Bag;
  lq_page : option nat;
  lq_pageSize : option nat
}.

Record AccountLedgerItem : Type := mkAccountLedgerItem {
  item : TransactionLine;
  runningBalance : number
}.

Record AccountLedgerResult : Type := mkAccountLedgerResult {
  items : list AccountLedgerItem;
  total : nat;
  page : nat;
  pageSize : nat
}.

(** [x || d] for an optional count. *)
Definition or_default (x : option nat) (d : nat) : nat :=
  match x with
  | Some O | None => d
  | Some n => n
  end.

(** [sort({ datetime: 1, _id: 1 })]. *)
Definition ledger_leb (x y : TransactionLine) : bool :=
  (t_datetime x <? t_datetime y)%Z
  || (t_datetime x =? t_datetime y)%Z && (t_id x <=? t_id y)%nat.

Fixpoint insert_sorted {A} (leb : A -> A -> bool) (x : A) (l : list A) : list A :=
  match l with
  | [] => [x]
  | y :: l' => if leb x y then x :: l else y :: insert_sorted leb x l'
  end.

Definition sort_by {A} (leb : A -> A -> bool) (l : list A) : list A :=
  fold_right (insert_sorted leb) [] l.

(** The [items.map] of [getAccountLedger], with its running [currentBalance]. *)
Fixpoint ledgerItems (account : Account) (currentBalance : number)
    (items : list TransactionLine) : list AccountLedgerItem :=
  match items with
  | [] => []
  | item :: rest =>
      let netChange := getNetBalance (t_debit item) (t_credit item)
                                     (a_type account) (a_parentGroup account) in
      let currentBalance' := round (currentBalance + netChange) in
      mkAccountLedgerItem item currentBalance' :: ledgerItems account currentBalance' rest
  end.

Definition getAccountLedger (data : LedgerQuery) : M AccountLedgerResult :=
  let page := or_default (lq_page data) 1 in
  let pageSize := or_default (lq_pageSize data) 50 in
  let skip := ((page - 1) * pageSize)%nat in
  openingBalance <-
    match lq_from data with
    | Some from =>
        preRes <- getAccountBalance
                    (mkBalanceQuery (lq_accountKey data) None (Some (from - 1)%Z)
                                    (lq_metaFilter data)) ;;
        ret (balance preRes)
    | None => ret 0
    end ;;
  s <- get_store ;;
  let matching := balance_match (mkBalanceQuery (lq_accountKey data) (lq_from data)
                                   (lq_to data) (lq_metaFilter data)) in
  let items := firstn pageSize
                 (skipn skip (sort_by ledger_leb (filter matching (transactions s)))) in
  match findAccount (lq_accountKey data) (accounts s) with
  | None => throw PlainError
  | Some account =>
      let ledgerItems := ledgerItems account openingBalance items in
      let totalCount := List.length (filter matching (transactions s)) in
      ret (mkAccountLedgerResult ledgerItems totalCount page pageSize)
  end.

(** [$group] by [accountKey] with [$sum] of debit and credit: one row per
    distinct key of the matched entries. *)
Record GroupRow : Type := mkGroupRow {
  row_id : string;
  row_debit : number;
  row_credit : number
}.

Definition group_by_accountKey (l : list TransactionLine) : list GroupRow :=
  map (fun k =>
         let es := filter (fun t => String.eqb (t_accountKey t) k) l in
         mkGroupRow k (sum_of t_debit es) (sum_of t_credit es))
      (nodup string_dec (map t_accountKey l)).

Record TrialBalanceLine : Type := mkTrialBalanceLine {
  tl_accountKey : string;
  tl_accountCode : string;
  tl_accountName : string;
  tl_debit : number;
  tl_credit : number;
  tl_balance : number
}.

Record TrialBalanceResult : Type := mkTrialBalanceResult {
  tb_lines : list TrialBalanceLine;
  tb_totalDebit : number;
  tb_totalCredit : number;
  tb_asOf : Date
}.

Record TrialAcc : Type := mkTrialAcc {
  lines : list TrialBalanceLine;
  grandTotalDebit : number;
  grandTotalCredit : number
}.

(** One turn of the [for (const row of aggr)] loop of [getTrialBalance]. *)
Definition trial_step (accountMap : list (string * Account)) (acc : TrialAcc)
    (row : GroupRow) : TrialAcc :=
  match map_get (row_id row) accountMap with
  | None => acc
  | Some acct =>
      let d := round (row_debit row) in
      let c := round (row_credit row) in
      mkTrialAcc
        (lines acc ++ [mkTrialBalanceLine (a_key acct) (a_code acct) (a_name acct) d c
                         (getNetBalance d c (a_type acct) (a_parentGroup acct))])
        (grandTotalDebit acc + d)
        (grandTotalCredit acc + c)
  end.

(** The comparator [(a, b) => a.accountCode.localeCompare(b.accountCode)]:
    [a] stays before [b] unless the comparison is positive. *)
Definition code_leb (localeCompare : string -> string -> comparison)
    (a b : TrialBalanceLine) : bool :=
  match localeCompare (tl_accountCode a) (tl_accountCode b) with
  | Gt => false
  | _ => true
  end.

Definition getTrialBalance (localeCompare : string -> string -> comparison)
    (from to : option Date) : M TrialBalanceResult :=
  s <- get_store ;;
  let aggr := group_by_accountKey
                (filter (fun t => negb (t_voided t) && in_range from to (t_datetime t))
                        (transactions s)) in
  let accountMap := account_map (accounts s) in
  let acc := fold_left (trial_step accountMap) aggr (mkTrialAcc [] 0 0) in
  now <- new_Date ;;
  ret (mkTrialBalanceResult (sort_by (code_leb localeCompare) (lines acc))
         (round (grandTotalDebit acc)) (round (grandTotalCredit acc))
         (match to with Some t => t | None => now end)).

Record BalanceSheetResult : Type := mkBalanceSheetResult {
  bs_assets : number;
  bs_liabilities : number;
  bs_equity : number;
  bs_asOf : Date;
  bs_breakdown_assets : list (string * number);
  bs_breakdown_liabilities : list (string * number);
  bs_breakdown_equity : list (string * number)
}.

Record SheetAcc : Type := mkSheetAcc {
  assetsBreakdown : list (string * number);
  liabBreakdown : list (string * number);
  equityBreakdown : list (string * number);
  totalAssets : number;
  totalLiab : number;
  totalEquity : number;
  netIncome : number
}.

(** [breakdown[group] = round((breakdown[group] || 0) + net)]. *)
Definition add_to_breakdown (group : string) (net : number) (b : list (string * number))
    : list (string * number) :=
  map_set group (round (or0 (map_get group b) + net)) b.

(** One turn of the [for (const row of aggr)] loop of [getBalanceSheet]. *)
Definition sheet_step (acctMap : list (string * Account)) (acc : SheetAcc)
    (row : GroupRow) : SheetAcc :=
  match map_get (row_id row) acctMap with
  | None => acc
  | Some acct =>
      let net := getNetBalance (row_debit row) (row_credit row)
                               (a_type acct) (a_parentGroup acct) in
      let group := if String.eqb (a_group acct) "" then "General" else a_group acct in
      match a_parentGroup acct with
      | g_asset =>
          mkSheetAcc (add_to_breakdown group net (assetsBreakdown acc)) (liabBreakdown acc)
                     (equityBreakdown acc) (totalAssets acc + net) (totalLiab acc)
                     (totalEquity acc) (netIncome acc)
      | g_liability =>
          mkSheetAcc (assetsBreakdown acc) (add_to_breakdown group net (liabBreakdown acc))
                     (equityBreakdown acc) (totalAssets acc) (totalLiab acc + net)
                     (totalEquity acc) (netIncome acc)
      | g_equity =>
          mkSheetAcc (assetsBreakdown acc) (liabBreakdown acc)
                     (add_to_breakdown group net (equityBreakdown acc)) (totalAssets acc)
                     (totalLiab acc) (totalEquity acc + net) (netIncome acc)
      | g_income =>
          mkSheetAcc (assetsBreakdown acc) (liabBreakdown acc) (equityBreakdown acc)
                     (totalAssets acc) (totalLiab acc) (totalEquity acc)
                     (netIncome acc + net)
      | g_expense =>
          mkSheetAcc (assetsBreakdown acc) (liabBreakdown acc) (equityBreakdown acc)
                     (totalAssets acc) (totalLiab acc) (totalEquity acc)
                     (netIncome acc - net)
      end
  end.

Definition getBalanceSheet (asOf : Date) : M BalanceSheetResult :=
  s <- get_store ;;
  let aggr := group_by_accountKey
                (filter (fun t => negb (t_voided t) && (t_datetime t <=? asOf)%Z)
                        (transactions s)) in
  let acctMap := account_map (accounts s) in
  let acc := fold_left (sheet_step acctMap) aggr (mkSheetAcc [] [] [] 0 0 0 0) in
  let retainedKey := "Retained Earnings (Calc)" in
  let equityBreakdown := add_to_breakdown retainedKey (netIncome acc) (equityBreakdown acc) in
  let totalEquity := totalEquity acc + netIncome acc in
  ret (mkBalanceSheetResult (round (totalAssets acc)) (round (totalLiab acc))
         (round totalEquity) asOf (assetsBreakdown acc) (liabBreakdown acc)
         equityBreakdown).

(** ** Seeding (src/setup) *)

(** A seed is an account without [_id], [createdAt] and [updatedAt]. *)
Record AccountSeed : Type := mkAccountSeed {
  as_key : string;
  as_code : string;
  as_name : string;
  as_type : AccountType;
  as_parentGroup : AccountParentGroup;
  as_group : string;
  as_origin : option AccountOrigin;
  as_isActive : bool;
  as_parentAccountKey : option string;
  as_extra : Bag
}.

(** The document of the [$setOnInsert] of one seed. *)
Definition seedDoc (acct : AccountSeed) : M Account :=
  id <- new_ObjectId ;;
  createdAt <- new_Date ;;
  updatedAt <- new_Date ;;
  ret (mkAccount id (as_key acct) (as_code acct) (as_name acct) (as_type acct)
         (as_parentGroup acct) (as_group acct) (as_origin acct) true
         (as_parentAccountKey acct) (as_extra acct) createdAt updatedAt).

(** [updateOne] with [upsert]: the document is inserted when no account has
    its key, and nothing is written otherwise. *)
Definition upsert_account (doc : Account) : M unit :=
  set_accounts (fun l => if is_some (findAccount (a_key doc) l) then l else l ++ [doc]).

Definition seedAccounts (accts : list AccountSeed) : M (list Account) :=
  ops <- mapM seedDoc accts ;;
  mapM upsert_account ops ;;;
  s <- get_store ;;
  ret (filter (fun a => existsb (fun acct => String.eqb (a_key a) (as_key acct)) accts)
              (accounts s)).

(** ** Vocabulary of the specification *)

(** *** Exact values *)

(** The exact value of a number: the rational [±m * 2^e] of a finite
    non-zero number and 0 for the zeros.  ([NaN] and the infinities, which
    [is_finite] tells apart, are given 0.) *)
Definition exact (x : number) : Q :=
  match Prim2SF x with
  | S754_finite s m e => (inject_Z (if s then Z.neg m else Z.pos m) * Qpower 2 e)%Q
  | _ => 0%Q
  end.

(** The sum of rationals. *)
Definition qsum {A} (f : A -> Q) (l : list A) : Q :=
  fold_right (fun x acc => (f x + acc)%Q) 0%Q l.

(** The whole number that [round] reads in [x]: [round x] is
    [scaled x / 100]. *)
Definition scaled (x : number) : number := Math_round ((x + EPSILON) * 100).

(** The cents of a number, as [round] reads them. *)
Definition cents (x : number) : Q := exact (scaled x).

(** [round] reads [q] cents in [x], and makes a finite number of them. *)
Definition reads (x : number) (q : Q) : Prop :=
  is_finite (scaled x) = true /\ is_finite (round x) = true /\ (cents x == q)%Q.

(** The sum of the cents. *)
Definition cents_sum {A} (f : A -> number) (l : list A) : Q :=
  qsum (fun x => cents (f x)) l.

(** Adding up the list in floating point loses and gains no cent: [round]
    reads in the sum the cents of its terms, added up. *)
Definition adds_to_the_cent {A} (f : A -> number) (l : list A) : Prop :=
  reads (sum_of f l) (cents_sum f l).

(** Rounding a second time changes nothing: [round] reads in [round x] the
    cents it reads in [x]. *)
Definition round_settled (x : number) : Prop := reads (round x) (cents x).

(** Adding and subtracting in turn, from 0: a flagged number is subtracted
    from the running total, any other is added to it. *)
Definition accumulate (l : list (bool * number)) : number :=
  fold_left (fun (acc : number) (p : bool * number) =>
               if fst p then acc - snd p else acc + snd p) l 0.

Definition cents_accumulate (l : list (bool * number)) : Q :=
  qsum (fun p : bool * number => if fst p then (- cents (snd p))%Q else cents (snd p)) l.

Definition accumulates_to_the_cent (l : list (bool * number)) : Prop :=
  reads (accumulate l) (cents_accumulate l).

(** *** Posting *)

(** The amount of a side of a line, as [postJournal] reads it: an absent
    side and [NaN] are the amount 0. *)
Definition amount (x : option number) : number := or0 x.

Definition line_negative (l : TransactionLineInput) : Prop :=
  (amount (li_debit l) <? 0) = true \/ (amount (li_credit l) <? 0) = true.

Definition line_both_zero (l : TransactionLineInput) : Prop :=
  (amount (li_debit l) =? 0) = true /\ (amount (li_credit l) =? 0) = true.

Definition line_both_nonzero (l : TransactionLineInput) : Prop :=
  (amount (li_debit l) =? 0) = false /\ (amount (li_credit l) =? 0) = false.

Definition bad_line (l : TransactionLineInput) : Prop :=
  line_negative l \/ line_both_zero l \/ line_both_nonzero l.

(** A request with fewer than two lines, without memo or datetime, or with
    a bad line. *)
Definition malformed (data : PostJournalInput) : Prop :=
  (List.length (lines_of data) < 2)%nat
  \/ truthy (pj_memo data) = false
  \/ pj_datetime data = None
  \/ exists l, In l (lines_of data) /\ bad_line l.

(** The total of a side: the amounts added up in line order. *)
Definition lines_total (f : TransactionLineInput -> option number) (data : PostJournalInput)
    : number :=
  fold_left (fun acc l => acc + amount (f l)) (lines_of data) 0.

(** Two stores hold the same documents. *)
Definition same_docs (s s' : Store) : Prop :=
  accounts s' = accounts s /\ journals s' = journals s /\
  transactions s' = transactions s.

(** *** Voiding *)

(** A journal that [voidJournal] can void: it has the given id and is not
    voided. *)
Definition live_journal (journalId : ObjectId) (j : Journal) : Prop :=
  j_id j = journalId /\ j_voided j = false.

(** What the cascade of [voidJournal] does to one entry: an entry of the
    journal becomes voided, any other entry stays as it is. *)
Definition cascaded (journalId : ObjectId) (now : Date) (t t' : TransactionLine) : Prop :=
  (t_journalId t = journalId -> t' = set_transaction_voided now t) /\
  (t_journalId t <> journalId -> t' = t).

(** The journals that an identifier names. *)
Definition selects (identifier : JournalIdentifier) (j : Journal) : Prop :=
  match identifier with
  | ByJournalId id => j_id j = id
  | ByReference rt rid => j_referenceType j = Some rt /\ j_referenceId j = Some rid
  end.

(** A journal that the bulk void voids: named by the identifier and not
    voided yet. *)
Definition to_void (identifier : JournalIdentifier) (j : Journal) : Prop :=
  selects identifier j /\ j_voided j = false.

(** An entry that the bulk void voids: not voided yet, of a journal of the
    store that the bulk void voids. *)
Definition to_cascade (identifier : JournalIdentifier) (s : Store) (t : TransactionLine)
    : Prop :=
  t_voided t = false /\
  exists j, In j (journals s) /\ to_void identifier j /\ t_journalId t = j_id j.

(** What the bulk void does to one journal and to one entry. *)
Definition bulk_voided (identifier : JournalIdentifier) (reason : string) (now : Date)
    (j j' : Journal) : Prop :=
  (to_void identifier j -> j' = set_journal_voided reason now j) /\
  (~ to_void identifier j -> j' = j).

Definition bulk_cascaded (identifier : JournalIdentifier) (s : Store) (now : Date)
    (t t' : TransactionLine) : Prop :=
  (to_cascade identifier s t -> t' = set_transaction_voided now t) /\
  (~ to_cascade identifier s t -> t' = t).

(** The number of documents whose [voided] flag goes from [false] in [l] to
    [true] at the same place of [l']. *)
Definition newly_voided {A} (voided : A -> bool) (l l' : list A) : nat :=
  List.length (filter (fun p => negb (voided (fst p)) && voided (snd p)) (combine l l')).

(** *** The ledger of an account *)

(** [l'] holds the elements of [l] that satisfy [P], in the order of [l]. *)
Inductive selection {A} (P : A -> Prop) : list A -> list A -> Prop :=
| selection_nil : selection P [] []
| selection_keep x l l' : P x -> selection P l l' -> selection P (x :: l) (x :: l')
| selection_drop x l l' : ~ P x -> selection P l l' -> selection P (x :: l) l'.

(** An entry that the ledger lists: posted to the account, not voided, not
    before [from] and not after [to] where they are given, and matching the
    meta filter. *)
Definition listed (data : LedgerQuery) (t : TransactionLine) : Prop :=
  t_accountKey t = lq_accountKey data /\ t_voided t = false /\
  (forall from, lq_from data = Some from -> (from <= t_datetime t)%Z) /\
  (forall to, lq_to data = Some to -> (t_datetime t <= to)%Z) /\
  meta_matches (lq_metaFilter data) t = true.

(** An entry that counts towards the opening balance: posted to the
    account, not voided, strictly before [from], and matching the meta
    filter. *)
Definition earlier (data : LedgerQuery) (from : Date) (t : TransactionLine) : Prop :=
  t_accountKey t = lq_accountKey data /\ t_voided t = false /\
  (t_datetime t < from)%Z /\
  meta_matches (lq_metaFilter data) t = true.

(** The query of [getAccountLedger] for the entries of the page, and its
    query for the opening balance. *)
Definition ledger_query (data : LedgerQuery) : BalanceQuery :=
  mkBalanceQuery (lq_accountKey data) (lq_from data) (lq_to data) (lq_metaFilter data).

Definition opening_query (data : LedgerQuery) (from : Date) : BalanceQuery :=
  mkBalanceQuery (lq_accountKey data) None (Some (from - 1)%Z) (lq_metaFilter data).

(** The balance of an account over a list of entries: the debits less the
    credits for a debit-normal account, the credits less the debits
    otherwise, each side added up in the order of the list and the
    difference rounded to two decimals. *)
Definition balance_of (account : Account) (l : list TransactionLine) : number :=
  if isDebitNormal account
  then round (sum_of t_debit l - sum_of t_credit l)
  else round (sum_of t_credit l - sum_of t_debit l).

(** The signed change an entry makes to the balance of its account:
    debit minus credit for a debit-normal account, credit minus debit
    otherwise, rounded to two decimals. *)
Definition netChange (account : Account) (t : TransactionLine) : number :=
  if isDebitNormal account then round (t_debit t - t_credit t)
  else round (t_credit t - t_debit t).

(** The running balance after a list of entries, rounded at each step. *)
Definition running (account : Account) (opening : number) (l : list TransactionLine)
    : number :=
  fold_left (fun b t => round (b + netChange account t)) l opening.

Definition at_time (d : Date) (t : TransactionLine) : bool :=
  (t_datetime t =? d)%Z.

(** The entries are stored with increasing [_id]s, all below the counter
    that the next [ObjectId] is drawn from. *)
Definition ids_increasing (s : Store) : Prop :=
  StronglySorted lt (map t_id (transactions s)) /\
  forall t, In t (transactions s) -> (t_id t < next_oid s)%nat.

(** [s'] holds the entries of [s], in place and with their ids, followed by
    new entries whose ids increase, start at or above the counter of [s] and
    stay below the counter of [s']. *)
Definition extends (s s' : Store) : Prop :=
  (next_oid s <= next_oid s')%nat /\
  exists new, map t_id (transactions s') = map t_id (transactions s) ++ new /\
              StronglySorted lt new /\
              Forall (fun i => (next_oid s <= i < next_oid s')%nat) new.

(** An operation that only extends the store. *)
Definition grows {A} (m : M A) : Prop := forall s, extends s (snd (m s)).

(** The stores that the operations of the package reach from the empty
    database, whatever their arguments and whether they succeed or fail,
    while the clock moves. *)
Inductive reachable : Store -> Prop :=
| reach_empty now : reachable (mkStore [] [] [] 0 now)
| reach_clock s now :
    reachable s ->
    reachable (mkStore (accounts s) (journals s) (transactions s) (next_oid s) now)
| reach_seedAccounts s accts : reachable s -> reachable (snd (seedAccounts accts s))
| reach_createAccount s data : reachable s -> reachable (snd (createAccount data s))
| reach_updateAccount s data : reachable s -> reachable (snd (updateAccount data s))
| reach_deactivateAccount s key : reachable s -> reachable (snd (deactivateAccount key s))
| reach_applyOpeningBalance s data :
    reachable s -> reachable (snd (applyOpeningBalance data s))
| reach_postJournal s data : reachable s -> reachable (snd (postJournal data s))
| reach_voidJournal s journalId reason :
    reachable s -> reachable (snd (voidJournal journalId reason s))
| reach_voidJournalsByIdentifier s identifier reason :
    reachable s -> reachable (snd (voidJournalsByIdentifier identifier reason s)).

(** *** The reports *)

(** The elements of a list that have a given key. *)
Definition class {A K} (key : A -> K) (eqb : K -> K -> bool) (k : K) (l : list A) : list A :=
  filter (fun x => eqb (key x) k) l.

(** The non-voided entries of a journal. *)
Definition journal_entries (journalId : ObjectId) (s : Store) : list TransactionLine :=
  filter (fun t => (t_journalId t =? journalId)%nat && negb (t_voided t)) (transactions s).

(** Every journal is balanced to two decimals over its non-voided entries,
    the test that [postJournal] makes. *)
Definition journals_balanced (s : Store) : Prop :=
  forall j, (round (sum_of t_debit (journal_entries j s))
             =? round (sum_of t_credit (journal_entries j s))) = true.

(** Every journal is balanced to the cent over its non-voided entries: the
    cents of its debits and the cents of its credits add up to the same
    number. *)
Definition journals_balanced_to_the_cent (s : Store) : Prop :=
  forall j, (cents_sum t_debit (journal_entries j s)
             == cents_sum t_credit (journal_entries j s))%Q.

(** The entries of one journal carry one datetime, that of the journal. *)
Definition datetime_mirrored (s : Store) : Prop :=
  forall t1 t2, In t1 (transactions s) -> In t2 (transactions s) ->
                t_journalId t1 = t_journalId t2 -> t_datetime t1 = t_datetime t2.

(** Every entry is posted to an account of the chart. *)
Definition accounts_known (s : Store) : Prop :=
  forall t, In t (transactions s) ->
            exists a, In a (accounts s) /\ a_key a = t_accountKey t.

(** The chart has no contra account in the liability group. *)
Definition no_contra_liability (s : Store) : Prop :=
  forall a, In a (accounts s) -> ~ (a_type a = t_contra /\ a_parentGroup a = g_liability).

(** The non-voided entries of a period, and those of one account among
    them. *)
Definition entries_in (from to : option Date) (s : Store) : list TransactionLine :=
  filter (fun t => negb (t_voided t) && in_range from to (t_datetime t)) (transactions s).

Definition entries_of (k : string) (l : list TransactionLine) : list TransactionLine :=
  class t_accountKey String.eqb k l.

(** The arithmetic of the trial balance is right to the cent: the debits
    and the credits of each account add up to the cent, to totals on which
    [round] is settled, and the debit and the credit lines of the report
    add up to the cent. *)
Definition trial_arithmetic_to_the_cent (from to : option Date) (s : Store) : Prop :=
  let sel := entries_in from to s in
  let rows := group_by_accountKey sel in
  (forall k, In k (map t_accountKey sel) ->
     adds_to_the_cent t_debit (entries_of k sel) /\
     round_settled (sum_of t_debit (entries_of k sel)) /\
     adds_to_the_cent t_credit (entries_of k sel) /\
     round_settled (sum_of t_credit (entries_of k sel))) /\
  adds_to_the_cent (fun row => round (row_debit row)) rows /\
  adds_to_the_cent (fun row => round (row_credit row)) rows.

(** The account of a row of a report and the net balance that
    [getBalanceSheet] computes for it. *)
Definition row_account (s : Store) (row : GroupRow) : option Account :=
  map_get (row_id row) (account_map (accounts s)).

Definition row_net (s : Store) (row : GroupRow) : number :=
  match row_account s row with
  | Some acct => getNetBalance (row_debit row) (row_credit row)
                               (a_type acct) (a_parentGroup acct)
  | None => 0
  end.

(** The rows of the accounts of a parent group. *)
Definition rows_in (g : AccountParentGroup) (s : Store) (rows : list GroupRow)
    : list GroupRow :=
  filter (fun row => match row_account s row with
                     | Some acct => AccountParentGroup_eqb (a_parentGroup acct) g
                     | None => false
                     end) rows.

(** The net balances that make the net income, in row order: those of the
    income accounts, and, flagged, those of the expense accounts. *)
Definition income_terms (s : Store) (rows : list GroupRow) : list (bool * number) :=
  flat_map (fun row => match row_account s row with
                       | Some acct =>
                           match a_parentGroup acct with
                           | g_income => [(false, row_net s row)]
                           | g_expense => [(true, row_net s row)]
                           | _ => []
                           end
                       | None => []
                       end) rows.

(** The groups whose accounts have their balance on the debit side. *)
Definition debit_side (g : AccountParentGroup) : bool :=
  match g with g_asset | g_expense => true | _ => false end.

(** The arithmetic of the balance sheet is right to the cent: the debits
    and the credits of each account add up to the cent, and [round] reads
    in their difference the difference of their cents and is settled on it;
    the net balances of each group add up to the cent, and so does the net
    income; the equity total and the net income add to the cent; and
    [round] is settled on the three totals. *)
Definition sheet_arithmetic_to_the_cent (asOf : Date) (s : Store) : Prop :=
  let sel := entries_in None (Some asOf) s in
  let rows := group_by_accountKey sel in
  let totalAssets := sum_of (row_net s) (rows_in g_asset s rows) in
  let totalLiab := sum_of (row_net s) (rows_in g_liability s rows) in
  let totalEquity := sum_of (row_net s) (rows_in g_equity s rows) in
  let netIncome := accumulate (income_terms s rows) in
  (forall k, In k (map t_accountKey sel) ->
     let d := sum_of t_debit (entries_of k sel) in
     let c := sum_of t_credit (entries_of k sel) in
     adds_to_the_cent t_debit (entries_of k sel) /\
     adds_to_the_cent t_credit (entries_of k sel) /\
     reads (d - c) (cents d - cents c) /\ round_settled (d - c) /\
     reads (c - d) (cents c - cents d) /\ round_settled (c - d)) /\
  adds_to_the_cent (row_net s) (rows_in g_asset s rows) /\
  adds_to_the_cent (row_net s) (rows_in g_liability s rows) /\
  adds_to_the_cent (row_net s) (rows_in g_equity s rows) /\
  accumulates_to_the_cent (income_terms s rows) /\
  reads (totalEquity + netIncome) (cents totalEquity + cents netIncome) /\
  round_settled totalAssets /\ round_settled totalLiab /\
  round_settled (totalEquity + netIncome).

(** *** Accounts *)

(** One hop up the parent chain: the parent key of the account with the
    given key; nothing from an absent or empty key or an unknown account. *)
Definition parent_hop (accts : list Account) (k : option string) : option string :=
  match k with
  | Some ck =>
      if String.eqb ck "" then None
      else match findAccount ck accts with
           | Some node => a_parentAccountKey node
           | None => None
           end
  | None => None
  end.

(** The key reached from [start] after [n] hops. *)
Fixpoint ancestor (accts : list Account) (start : option string) (n : nat) : option string :=
  match n with
  | O => start
  | S n' => parent_hop accts (ancestor accts start n')
  end.

(** The consistency table of account type and parent group. *)
Definition consistent (type : AccountType) (parentGroup : AccountParentGroup) : bool :=
  match type, parentGroup with
  | t_asset, g_asset | t_liability, g_liability | t_equity, g_equity
  | t_income, g_income | t_expense, g_expense
  | t_contra, g_asset | t_contra, g_liability => true
  | _, _ => false
  end.

(** A numeric string: one or more decimal digits and nothing else. *)
Fixpoint all_digits (s : string) : bool :=
  match s with
  | EmptyString => true
  | String c s' => is_digit c && all_digits s'
  end.

Definition numeric_string (s : string) : bool :=
  negb (String.eqb s "") && all_digits s.

(** The required fields of [createAccount]: key, code, name, type,
    parentGroup and group. *)
Definition missing_field (data : CreateAccountInput) : Prop :=
  truthy (ca_key data) = false \/ truthy (ca_code data) = false \/
  truthy (ca_name data) = false \/ ca_type data = None \/
  ca_parentGroup data = None \/ truthy (ca_group data) = false.

Definition inconsistent (data : CreateAccountInput) : Prop :=
  exists t g, ca_type data = Some t /\ ca_parentGroup data = Some g /\
              consistent t g = false.

Definition parent_unknown (data : CreateAccountInput) (s : Store) : Prop :=
  exists pk, ca_parentAccountKey data = Some pk /\ pk <> "" /\
             findAccount pk (accounts s) = None.

Definition duplicate (data : CreateAccountInput) (s : Store) : Prop :=
  exists a, In a (accounts s) /\
            (ca_key data = Some (a_key a) \/ ca_code data = Some (a_code a)).

(** *** Opening balances *)

(** The entry that [postJournal] stores for a line. *)
Definition posted (accts : list Account) (journalId : ObjectId) (datetime : Date)
    (line : TransactionLineInput) (t : TransactionLine) : Prop :=
  t_journalId t = journalId /\ t_accountKey t = li_accountKey line /\
  t_debit t = or0 (li_debit line) /\ t_credit t = or0 (li_credit line) /\
  t_meta t = li_meta line /\ t_datetime t = datetime /\ t_voided t = false /\
  exists a, In a accts /\ a_key a = li_accountKey line /\ t_accountCode t = a_code a.

(** The prior opening-balance journal that [applyOpeningBalance] looks for. *)
Definition prior_opening_balance (accountKey : string) (s : Store) : option Journal :=
  find (fun j => opt_eqb (j_referenceType j) OPENING_BALANCE_REFERENCE_TYPE
                 && opt_eqb (j_referenceId j) accountKey
                 && negb (j_voided j)) (journals s).

(** The account keys of the chart are unique. *)
Definition keys_unique (s : Store) : Prop := NoDup (map a_key (accounts s)).

(** Every non-voided entry of the account belongs to its prior
    opening-balance journal. *)
Definition only_opening_balance (accountKey : string) (s : Store) : Prop :=
  forall t, In t (transactions s) -> t_accountKey t = accountKey -> t_voided t = false ->
            exists j0, prior_opening_balance accountKey s = Some j0 /\
                       t_journalId t = j_id j0.

(** The store after the prior opening-balance journal, if any, is voided. *)
Definition prior_voided (accountKey : string) (s s1 : Store) : Prop :=
  match prior_opening_balance accountKey s with
  | Some j0 => voidJournal (j_id j0) "Updated opening balance" s = (Ok true, s1)
  | None => s1 = s
  end.

(** ** Example data *)

Definition empty_store : Store := mkStore [] [] [] 0%nat 0%Z.

(** Section 8: two lines [{debit: 100}] and [{credit: 99.99}]. *)
Definition unbalanced_request : PostJournalInput :=
  mkPostJournalInput (Some "sale") (Some 1000%Z) None None
    (Some [ mkLineInput "CASH" (Some 100) None None;
            mkLineInput "SALES" None (Some 99.99) None ]).

(** Section 8: a line with both [debit: 10] and [credit: 10]. *)
Definition two_sided_request : PostJournalInput :=
  mkPostJournalInput (Some "sale") (Some 1000%Z) None None
    (Some [ mkLineInput "CASH" (Some 10) (Some 10) None;
            mkLineInput "SALES" None (Some 10) None ]).

(** A user-created, active account without parent. *)
Definition account (id : ObjectId) (key code name : string) (type : AccountType)
    (parentGroup : AccountParentGroup) : Account :=
  mkAccount id key code name type parentGroup "General" (Some userCreated) true None []
            0%Z 0%Z.

Definition CASH : Account := account 0 "CASH" "1000" "Cash" t_asset g_asset.
Definition BANK : Account := account 1 "BANK" "1010" "Bank" t_asset g_asset.
Definition LOAN : Account := account 2 "LOAN" "2000" "Loan" t_liability g_liability.

Definition chart_store : Store := mkStore [CASH; BANK; LOAN] [] [] 3%nat 0%Z.

(** The inputs of [createAccount] that make the chart. *)
Definition account_input (key code name : string) (type : AccountType)
    (parentGroup : AccountParentGroup) : CreateAccountInput :=
  mkCreateAccountInput (Some key) (Some code) (Some name) (Some type) (Some parentGroup)
    (Some "General") (Some userCreated) None None.

(** One journal, balanced to the last digit, with amounts below one cent:
    0.004 to CASH and 0.004 to BANK against 0.008 from LOAN. *)
Definition subcent_request : PostJournalInput :=
  mkPostJournalInput (Some "split") (Some 1000%Z) None None
    (Some [ mkLineInput "CASH" (Some 0.004) None None;
            mkLineInput "BANK" (Some 0.004) None None;
            mkLineInput "LOAN" None (Some 0.008) None ]).

Definition subcent_journal : Journal :=
  mkJournal 3 "split" 1000%Z None None false None 0%Z 0%Z.

Definition subcent_entries : list TransactionLine :=
  [ mkTransactionLine 4 3 "CASH" "1000" 0.004 0 None 1000%Z false 0%Z 0%Z;
    mkTransactionLine 5 3 "BANK" "1010" 0.004 0 None 1000%Z false 0%Z 0%Z;
    mkTransactionLine 6 3 "LOAN" "2000" 0 0.008 None 1000%Z false 0%Z 0%Z ].

Definition subcent_store : Store :=
  mkStore [CASH; BANK; LOAN] [subcent_journal] subcent_entries 7%nat 0%Z.

(** One journal of whole cents, balanced to the last digit, with amounts
    of thirteen and fourteen digits: 1161516189575.19 to CASH and
    38510905981063.84 to BANK against 39672422170639.03 from LOAN. *)
Definition large_request : PostJournalInput :=
  mkPostJournalInput (Some "merger") (Some 1000%Z) None None
    (Some [ mkLineInput "CASH" (Some 1161516189575.19) None None;
            mkLineInput "BANK" (Some 38510905981063.84) None None;
            mkLineInput "LOAN" None (Some 39672422170639.03) None ]).

Definition large_store : Store :=
  mkStore [CASH; BANK; LOAN]
    [ mkJournal 3 "merger" 1000%Z None None false None 0%Z 0%Z ]
    [ mkTransactionLine 4 3 "CASH" "1000" 1161516189575.19 0 None 1000%Z false 0%Z 0%Z;
      mkTransactionLine 5 3 "BANK" "1010" 38510905981063.84 0 None 1000%Z false 0%Z 0%Z;
      mkTransactionLine 6 3 "LOAN" "2000" 0 39672422170639.03 None 1000%Z false 0%Z 0%Z ]
    7%nat 0%Z.

(** A chart with a contra account in the liability group, and one journal
    of whole amounts: 100 to the contra account against 100 from CASH. *)
Definition DISCOUNT : Account :=
  account 1 "DISCOUNT" "2900" "Discount on notes" t_contra g_liability.

Definition contra_request : PostJournalInput :=
  mkPostJournalInput (Some "discount") (Some 1000%Z) None None
    (Some [ mkLineInput "DISCOUNT" (Some 100) None None;
            mkLineInput "CASH" None (Some 100) None ]).

Definition contra_store : Store :=
  mkStore [CASH; DISCOUNT]
    [ mkJournal 2 "discount" 1000%Z None None false None 0%Z 0%Z ]
    [ mkTransactionLine 3 2 "DISCOUNT" "2900" 100 0 None 1000%Z false 0%Z 0%Z;
      mkTransactionLine 4 2 "CASH" "1000" 0 100 None 1000%Z false 0%Z 0%Z ]
    5%nat 0%Z.

(** A ledger of whole cents: a loan of 250.50 paid into CASH, of which
    100.25 is moved to BANK. *)
Definition loan_request : PostJournalInput :=
  mkPostJournalInput (Some "loan") (Some 1000%Z) None None
    (Some [ mkLineInput "CASH" (Some 250.5) None None;
            mkLineInput "LOAN" None (Some 250.5) None ]).

Definition deposit_request : PostJournalInput :=
  mkPostJournalInput (Some "deposit") (Some 2000%Z) None None
    (Some [ mkLineInput "BANK" (Some 100.25) None None;
            mkLineInput "CASH" None (Some 100.25) None ]).

Definition cents_store : Store :=
  mkStore [CASH; BANK; LOAN]
    [ mkJournal 3 "loan" 1000%Z None None false None 0%Z 0%Z;
      mkJournal 6 "deposit" 2000%Z None None false None 0%Z 0%Z ]
    [ mkTransactionLine 4 3 "CASH" "1000" 250.5 0 None 1000%Z false 0%Z 0%Z;
      mkTransactionLine 5 3 "LOAN" "2000" 0 250.5 None 1000%Z false 0%Z 0%Z;
      mkTransactionLine 7 6 "BANK" "1010" 100.25 0 None 2000%Z false 0%Z 0%Z;
      mkTransactionLine 8 6 "CASH" "1000" 0 100.25 None 2000%Z false 0%Z 0%Z ]
    9%nat 0%Z.

(** A shop: takings of 0.10 and 0.20 in cash booked as a sale of 0.30, rent
    of 0.70 paid in cash, and 1000.10 paid in, half as a loan and half as
    capital.  In floating point 0.1 + 0.2 is not 0.3. *)
Definition SALES : Account := account 3 "SALES" "4000" "Sales" t_income g_income.
Definition RENT : Account := account 4 "RENT" "5000" "Rent" t_expense g_expense.
Definition CAPITAL : Account := account 5 "CAPITAL" "3000" "Capital" t_equity g_equity.

Definition shop_chart : Store :=
  mkStore [CASH; BANK; LOAN; SALES; RENT; CAPITAL] [] [] 6%nat 0%Z.

Definition sale_request : PostJournalInput :=
  mkPostJournalInput (Some "takings") (Some 1000%Z) None None
    (Some [ mkLineInput "CASH" (Some 0.1) None None;
            mkLineInput "CASH" (Some 0.2) None None;
            mkLineInput "SALES" None (Some 0.3) None ]).

Definition rent_request : PostJournalInput :=
  mkPostJournalInput (Some "rent") (Some 2000%Z) None None
    (Some [ mkLineInput "RENT" (Some 0.7) None None;
            mkLineInput "CASH" None (Some 0.7) None ]).

Definition funding_request : PostJournalInput :=
  mkPostJournalInput (Some "funding") (Some 3000%Z) None None
    (Some [ mkLineInput "CASH" (Some 1000.1) None None;
            mkLineInput "LOAN" None (Some 500.05) None;
            mkLineInput "CAPITAL" None (Some 500.05) None ]).

(** The store after the three journals are posted. *)
Definition shop_store : Store :=
  mkStore [CASH; BANK; LOAN; SALES; RENT; CAPITAL]
    [ mkJournal 6 "takings" 1000%Z None None false None 0%Z 0%Z;
      mkJournal 10 "rent" 2000%Z None None false None 0%Z 0%Z;
      mkJournal 13 "funding" 3000%Z None None false None 0%Z 0%Z ]
    [ mkTransactionLine 7 6 "CASH" "1000" 0.1 0 None 1000%Z false 0%Z 0%Z;
      mkTransactionLine 8 6 "CASH" "1000" 0.2 0 None 1000%Z false 0%Z 0%Z;
      mkTransactionLine 9 6 "SALES" "4000" 0 0.3 None 1000%Z false 0%Z 0%Z;
      mkTransactionLine 11 10 "RENT" "5000" 0.7 0 None 2000%Z false 0%Z 0%Z;
      mkTransactionLine 12 10 "CASH" "1000" 0 0.7 None 2000%Z false 0%Z 0%Z;
      mkTransactionLine 14 13 "CASH" "1000" 1000.1 0 None 3000%Z false 0%Z 0%Z;
      mkTransactionLine 15 13 "LOAN" "2000" 0 500.05 None 3000%Z false 0%Z 0%Z;
      mkTransactionLine 16 13 "CAPITAL" "3000" 0 500.05 None 3000%Z false 0%Z 0%Z ]
    17%nat 0%Z.

Definition cash_ledger_query : LedgerQuery :=
  mkLedgerQuery "CASH" (Some 1500%Z) None None None None.

Definition abc_account (id : ObjectId) (key code : string) (parent : option string)
    : Account :=
  mkAccount id key code key t_asset g_asset "General" (Some userCreated) true parent []
            0%Z 0%Z.

(** Accounts A, B with parent A, C with parent B, and D on its own. *)
Definition abc_store : Store :=
  mkStore [ abc_account 0 "A" "1000" None; abc_account 1 "B" "1001" (Some "A");
            abc_account 2 "C" "1002" (Some "B"); abc_account 3 "D" "1003" None ]
          [] [] 4%nat 0%Z.

Definition reparent (key parentKey : string) : UpdateAccountInput :=
  mkUpdateAccountInput (Some key) None None None None (Some (Some parentKey)).

(** An account code that starts with a digit and goes on with letters. *)
Definition lettered_code_input : CreateAccountInput :=
  mkCreateAccountInput (Some "PETTY") (Some "1abc") (Some "Petty cash")
    (Some t_asset) (Some g_asset) (Some "Current") (Some userCreated) None None.

(** CASH and the default offset account, with a prior opening balance of
    300 for CASH. *)
Definition OBE : Account := DEFAULT_OPENING_BALANCE_ACCOUNT 1 0.

Definition reseed_store : Store :=
  mkStore [CASH; OBE]
    [ mkJournal 2 "Opening balance for Cash" 1000%Z (Some "opening_balance") (Some "CASH")
                false None 0%Z 0%Z ]
    [ mkTransactionLine 3 2 "CASH" "1000" 300 0 None 1000%Z false 0%Z 0%Z;
      mkTransactionLine 4 2 "OPENING_BALANCE_EQUITY" "3999" 0 300
        (Some [("offsetFor", "CASH")]) 1000%Z false 0%Z 0%Z ]
    5%nat 5000%Z.

Definition opening_balance_input (amount : number) : ApplyOpeningBalanceInput :=
  mkApplyOpeningBalanceInput "CASH" (Some amount) None None None None.

(** A chain of accounts, each the child of the next. *)
Fixpoint chain_key (i : nat) : string :=
  match i with
  | O => "N"
  | S i' => String "x" (chain_key i')
  end.

Definition chain_store (n : nat) : Store :=
  mkStore (map (fun i => abc_account i (chain_key i) "1000" (Some (chain_key (S i))))
               (seq 0 n))
          [] [] n 0%Z.

(** ** Properties *)

(** *** Numbers *)

Lemma Prim2SF_0 : Prim2SF 0 = S754_zero false.
Proof. reflexivity. Qed.

Lemma is_nan_spec (x : number) : is_nan x = true <-> Prim2SF x = S754_nan.
Proof.
  unfold is_nan. rewrite negb_true_iff, FloatAxioms.eqb_spec. unfold SFeqb.
  destruct (Prim2SF x) as [s|s| |s m e]; simpl.
  - split; discriminate.
  - destruct s; split; discriminate.
  - tauto.
  - rewrite Z.compare_refl.
    rewrite Pos.compare_cont_refl. destruct s; split; discriminate.
Qed.

(** A number that is not [NaN] is negative, zero or positive. *)
Lemma number_trichotomy (x : number) :
  is_nan x = false -> (x <? 0) = false -> (x =? 0) = false -> (0 <? x) = true.
Proof.
  intros Hnan. apply not_true_iff_false in Hnan. rewrite is_nan_spec in Hnan.
  rewrite !FloatAxioms.ltb_spec, FloatAxioms.eqb_spec, Prim2SF_0.
  unfold SFltb, SFeqb.
  destruct (Prim2SF x) as [s|s| |s m e]; simpl; try (destruct s); try discriminate;
    try reflexivity.
  now elim Hnan.
Qed.

Lemma number_zero_not_positive (x : number) : (x =? 0) = true -> (0 <? x) = false.
Proof.
  rewrite FloatAxioms.ltb_spec, FloatAxioms.eqb_spec, Prim2SF_0.
  unfold SFltb, SFeqb.
  destruct (Prim2SF x) as [s|s| |s m e]; simpl; try (destruct s); try discriminate;
    reflexivity.
Qed.

(** The only number that is [NaN]. *)
Lemma is_nan_nan (x : number) : is_nan x = true -> x = nan.
Proof.
  intros H. apply is_nan_spec in H. apply Prim2SF_inj. now rewrite H.
Qed.

Lemma or0_not_nan (x : option number) : is_nan (or0 x) = false.
Proof.
  destruct x as [q|]; simpl; [|reflexivity].
  unfold Number_isNaN. destruct (is_nan q) eqn:E.
  - rewrite orb_true_r. reflexivity.
  - rewrite orb_false_r. destruct (num_eq q 0); [reflexivity|exact E].
Qed.

(** *** The monad *)

Lemma bind_ok {A B} (m : M A) (k : A -> M B) s a s' :
  m s = (Ok a, s') -> bind m k s = k a s'.
Proof. unfold bind. now intros ->. Qed.

Lemma bind_throw {A B} (m : M A) (k : A -> M B) s e s' :
  m s = (Throw e, s') -> bind m k s = (Throw e, s').
Proof. unfold bind. now intros ->. Qed.

Lemma same_docs_refl s : same_docs s s.
Proof. now repeat split. Qed.

Lemma same_docs_trans s1 s2 s3 :
  same_docs s1 s2 -> same_docs s2 s3 -> same_docs s1 s3.
Proof.
  unfold same_docs. intros (a & b & c) (a' & b' & c').
  repeat split; congruence.
Qed.

Lemma new_ObjectId_docs s : same_docs s (snd (new_ObjectId s)).
Proof. now repeat split. Qed.

Lemma transactionDoc_docs m j d n line s :
  same_docs s (snd (transactionDoc m j d n line s)).
Proof.
  unfold transactionDoc. destruct (map_get _ m); [|apply same_docs_refl].
  unfold bind, new_ObjectId, ret; simpl. now repeat split.
Qed.

Lemma mapM_transactionDoc_docs m j d n lines : forall s,
  same_docs s (snd (mapM (transactionDoc m j d n) lines s)).
Proof.
  induction lines as [|l ls IH]; intros s; simpl; [apply same_docs_refl|].
  unfold bind at 1.
  pose proof (transactionDoc_docs m j d n l s) as H1.
  destruct (transactionDoc m j d n l s) as [[y|e] s1]; simpl in *; [|exact H1].
  unfold bind. pose proof (IH s1) as H2.
  destruct (mapM _ ls s1) as [[ys|e] s2]; simpl in *;
    eapply same_docs_trans; eauto.
Qed.

(** *** postJournal *)

Lemma check_line_bad acc l :
  bad_line l <-> check_line acc l = inl ValidationError.
Proof.
  unfold check_line, bad_line, line_negative, line_both_zero, line_both_nonzero, amount.
  pose proof (or0_not_nan (li_debit l)) as Hd.
  pose proof (or0_not_nan (li_credit l)) as Hc.
  set (d := or0 (li_debit l)) in *. set (c := or0 (li_credit l)) in *.
  unfold num_lt0, num_eq, num_gt0.
  destruct (d <? 0) eqn:Ed; [simpl; tauto|].
  destruct (c <? 0) eqn:Ec; [simpl; tauto|].
  simpl.
  destruct (d =? 0) eqn:Ed1, (c =? 0) eqn:Ec1; simpl.
  - tauto.
  - rewrite (number_zero_not_positive d Ed1). simpl.
    split; [|discriminate].
    intros [[H|H]|[[_ H]|[H _]]]; discriminate.
  - rewrite (number_zero_not_positive c Ec1), andb_false_r.
    split; [|discriminate].
    intros [[H|H]|[[H _]|[_ H]]]; discriminate.
  - rewrite (number_trichotomy d Hd Ed Ed1), (number_trichotomy c Hc Ec Ec1).
    simpl. tauto.
Qed.

Lemma check_line_error acc l e :
  check_line acc l = inl e -> e = ValidationError.
Proof.
  unfold check_line.
  repeat match goal with |- context [if ?b then _ else _] => destruct b end;
    congruence.
Qed.

Lemma check_line_totals acc l acc' :
  check_line acc l = inr acc' ->
  totalDebit acc' = totalDebit acc + amount (li_debit l) /\
  totalCredit acc' = totalCredit acc + amount (li_credit l).
Proof.
  unfold check_line.
  repeat match goal with |- context [if ?b then _ else _] => destruct b end;
    try discriminate.
  intros [= <-]; simpl. now split.
Qed.

Lemma check_lines_error lines : forall acc e,
  check_lines acc lines = inl e ->
  e = ValidationError /\ exists l, In l lines /\ bad_line l.
Proof.
  induction lines as [|l ls IH]; intros acc e; simpl; [discriminate|].
  destruct (check_line acc l) as [e'|acc'] eqn:E.
  - intros [= <-]. pose proof (check_line_error _ _ _ E) as ->.
    split; [reflexivity|]. exists l. split; [now left|].
    now apply (check_line_bad acc).
  - intros H. destruct (IH _ _ H) as (-> & l' & Hin & Hbad).
    split; [reflexivity|]. exists l'. split; [now right|exact Hbad].
Qed.

Lemma check_lines_ok lines : forall acc acc',
  check_lines acc lines = inr acc' ->
  (forall l, In l lines -> ~ bad_line l) /\
  totalDebit acc' = fold_left (fun a l => a + amount (li_debit l)) lines (totalDebit acc) /\
  totalCredit acc' = fold_left (fun a l => a + amount (li_credit l)) lines (totalCredit acc).
Proof.
  induction lines as [|l ls IH]; intros acc acc'; simpl.
  - intros [= <-]. repeat split. tauto.
  - destruct (check_line acc l) as [e'|acc1] eqn:E; [discriminate|].
    intros H. destruct (IH _ _ H) as (Hgood & Hd & Hc).
    destruct (check_line_totals _ _ _ E) as (Hd1 & Hc1).
    repeat split.
    + intros l' [<-|Hin]; [|now apply Hgood].
      rewrite (check_line_bad acc), E. discriminate.
    + now rewrite Hd, Hd1.
    + now rewrite Hc, Hc1.
Qed.

Ltac run :=
  unfold bind, when_throw, throw, ret, get_store, new_Date; simpl.

(** C1. A request with fewer than two lines, without memo or datetime, or
    with a line that has a negative side, two zero sides or two non-zero
    sides is refused with [ValidationError]; a request that passes these
    checks and whose total debit and total credit (the amounts of each side
    added up in line order, in floating point) differ once rounded to two
    decimals is refused with [DoubleEntryError]; and whenever [postJournal]
    fails, for whatever reason, the three collections hold exactly the
    documents they held before. *)
Theorem postJournal_rejects (data : PostJournalInput) (s : Store) :
  (malformed data -> postJournal data s = (Throw ValidationError, s)) /\
  (~ malformed data ->
   (round (lines_total li_debit data) =? round (lines_total li_credit data)) = false ->
   postJournal data s = (Throw DoubleEntryError, s)) /\
  (forall e s', postJournal data s = (Throw e, s') -> same_docs s s').
Proof.
  unfold postJournal, malformed, lines_total, lines_of.
  destruct (pj_lines data) as [l|] eqn:El.
  2:{ run. split; [|split]; try tauto.
      - intros H. exfalso. apply H. left. simpl. lia.
      - intros e0 s' [= <- <-]. apply same_docs_refl. }
  destruct (List.length l <? 2)%nat eqn:Elen.
  { run. split; [|split]; try tauto.
    - intros H. exfalso. apply H. left. now apply Nat.ltb_lt.
    - intros e0 s' [= <- <-]. apply same_docs_refl. }
  apply Nat.ltb_ge in Elen.
  destruct (pj_datetime data) as [datetime|] eqn:Edt.
  2:{ run. split; [|split]; try tauto.
      intros e0 s' [= <- <-]. apply same_docs_refl. }
  destruct (pj_memo data) as [memo|] eqn:Em.
  2:{ run. split; [|split]; try tauto.
      intros e0 s' [= <- <-]. apply same_docs_refl. }
  destruct (truthy (Some memo)) eqn:Etr.
  2:{ run. split; [|split]; try tauto.
      intros e0 s' [= <- <-]. apply same_docs_refl. }
  destruct (check_lines (mkLineAcc 0 0 []) l) as [e|acc] eqn:Ecl.
  { destruct (check_lines_error _ _ _ Ecl) as (-> & l' & Hin & Hbad).
    run. split; [|split]; try tauto.
    - intros H. exfalso. apply H. right. right. right. now exists l'.
    - intros e0 s' [= <- <-]. apply same_docs_refl. }
  destruct (check_lines_ok _ _ _ Ecl) as (Hgood & Hd & Hc).
  cbn [totalDebit totalCredit] in Hd, Hc.
  split; [|split].
  - intros [H|[H|[H|(l' & Hin & Hbad)]]]; try discriminate; [lia|].
    now apply Hgood in Hbad.
  - intros _ Hne. rewrite <- Hd, <- Hc in Hne.
    unfold num_eq. rewrite Hne. now run.
  - destruct (num_eq (round (totalDebit acc)) (round (totalCredit acc)));
      [|run; intros e0 s' [= <- <-]; apply same_docs_refl].
    run.
    destruct (0 <? List.length (filter _ (accountKeys acc)))%nat;
      [intros e0 s' [= <- <-]; apply same_docs_refl|].
    destruct (0 <? List.length (filter _ (filter _ (accounts s))))%nat;
      [intros e0 s' [= <- <-]; apply same_docs_refl|].
    match goal with
    | |- context [mapM ?f l ?s1] =>
        pose proof (mapM_transactionDoc_docs
                      (account_map (filter (fun a => set_has (a_key a) (accountKeys acc))
                                           (accounts s)))
                      (next_oid s) datetime (clock s) l s1) as Hm;
        destruct (mapM f l s1) as [[docs|e1] s2]
    end; simpl in *.
    + discriminate.
    + intros e0 s' [= <- <-]. exact Hm.
Qed.

Lemma postJournal_rejects_witness :
  postJournal two_sided_request empty_store = (Throw ValidationError, empty_store) /\
  postJournal unbalanced_request empty_store = (Throw DoubleEntryError, empty_store).
Proof.
  split.
  - apply (postJournal_rejects two_sided_request empty_store).
    right. right. right. eexists. split; [left; reflexivity|].
    right. right. split; reflexivity.
  - apply (postJournal_rejects unbalanced_request empty_store).
    + intros [H|[H|[H|(l & Hin & Hbad)]]];
        [simpl in H; lia | discriminate | discriminate |].
      simpl in Hin. destruct Hin as [<-|[<-|[]]];
        destruct Hbad as [[H|H]|[[H1 H2]|[H1 H2]]];
        vm_compute in *; discriminate.
    + reflexivity.
Defined.

(** The tolerance of the balance test at work: 2.135 against 2.13 is posted,
    since both round to 2.13 in floating point. *)
Lemma postJournal_tolerance :
  round 2.135 = 2.13 /\
  exists res s',
    postJournal (mkPostJournalInput (Some "sale") (Some 1000%Z) None None
                   (Some [ mkLineInput "CASH" (Some 2.135) None None;
                           mkLineInput "LOAN" None (Some 2.13) None ]))
                chart_store = (Ok res, s') /\
    map t_debit (transactions s') = [2.135; 0] /\
    map t_credit (transactions s') = [0; 2.13].
Proof.
  split; [vm_compute; reflexivity|].
  do 2 eexists. split; [vm_compute; reflexivity|]. split; reflexivity.
Qed.
(** *** voidJournal *)

Lemma update_first_none {A} (p : A -> bool) (f : A -> A) (l : list A) :
  (forall x, In x l -> p x = false) -> update_first p f l = (None, l).
Proof.
  induction l as [|x l IH]; simpl; intros H; [reflexivity|].
  rewrite (H x (or_introl eq_refl)), IH; [reflexivity|].
  intros y Hy. apply H. now right.
Qed.

Lemma update_first_some {A} (p : A -> bool) (f : A -> A) (l : list A) :
  (exists x, In x l /\ p x = true) ->
  exists l1 x l2, l = l1 ++ x :: l2 /\ p x = true /\
                  (forall y, In y l1 -> p y = false) /\
                  update_first p f l = (Some x, l1 ++ f x :: l2).
Proof.
  induction l as [|x l IH]; simpl; intros (y & Hy & Hp); [contradiction|].
  destruct (p x) eqn:E.
  - exists [], x, l. simpl. repeat split; [exact E|contradiction].
  - destruct IH as (l1 & z & l2 & -> & Hz & Hl1 & Hu).
    { destruct Hy as [->|Hy]; [congruence|]. now exists y. }
    exists (x :: l1), z, l2. rewrite Hu. simpl. repeat split; [exact Hz|].
    intros w [<-|Hw]; [exact E|now apply Hl1].
Qed.

Lemma update_many_cascaded journalId now (l : list TransactionLine) :
  Forall2 (cascaded journalId now) l
    (update_many (fun t => (t_journalId t =? journalId)%nat)
                 (set_transaction_voided now) l).
Proof.
  induction l as [|t l IH]; simpl; constructor; [|exact IH].
  unfold cascaded. destruct (Nat.eqb_spec (t_journalId t) journalId); split; tauto.
Qed.

Lemma live_journal_iff journalId j :
  live_journal journalId j <->
  ((j_id j =? journalId)%nat && negb (j_voided j) = true).
Proof.
  unfold live_journal. rewrite andb_true_iff, Nat.eqb_eq, negb_true_iff. tauto.
Qed.

(** The store after a successful [voidJournal]. *)
Lemma voidJournal_live (journalId : ObjectId) (reason : string) (s : Store) :
  (exists j, In j (journals s) /\ live_journal journalId j) ->
  exists js1 j js2,
    journals s = js1 ++ j :: js2 /\ live_journal journalId j /\
    (forall j', In j' js1 -> ~ live_journal journalId j') /\
    voidJournal journalId reason s
    = (Ok true,
       mkStore (accounts s) (js1 ++ set_journal_voided reason (clock s) j :: js2)
         (update_many (fun t => (t_journalId t =? journalId)%nat)
                      (set_transaction_voided (clock s)) (transactions s))
         (next_oid s) (clock s)).
Proof.
  intros (j0 & Hin & Hlive).
  destruct (update_first_some
              (fun j => (j_id j =? journalId)%nat && negb (j_voided j))
              (set_journal_voided reason (clock s)) (journals s))
    as (js1 & j & js2 & Hsplit & Hp & Hjs1 & Hu).
  { exists j0. split; [exact Hin|]. now apply live_journal_iff. }
  exists js1, j, js2.
  split; [exact Hsplit|]. split; [now apply live_journal_iff|].
  split.
  { intros j' Hj' Hl. apply live_journal_iff in Hl.
    rewrite (Hjs1 _ Hj') in Hl. discriminate. }
  unfold voidJournal, bind, new_Date, findOneAndUpdate_journal. simpl.
  rewrite Hu. reflexivity.
Qed.

Lemma voidJournal_dead (journalId : ObjectId) (reason : string) (s : Store) :
  ~ (exists j, In j (journals s) /\ live_journal journalId j) ->
  voidJournal journalId reason s = (Throw ValidationError, s).
Proof.
  intros Hnone.
  unfold voidJournal, bind, new_Date, findOneAndUpdate_journal. simpl.
  rewrite update_first_none.
  - destruct s; reflexivity.
  - intros j Hj. apply not_true_iff_false. intros Hp.
    apply Hnone. exists j. split; [exact Hj|]. now apply live_journal_iff.
Qed.

Lemma update_many_voided journalId now (l : list TransactionLine) t :
  In t (update_many (fun t => (t_journalId t =? journalId)%nat)
                    (set_transaction_voided now) l) ->
  t_journalId t = journalId -> t_voided t = true.
Proof.
  intros Ht Hid. unfold update_many in Ht. apply in_map_iff in Ht.
  destruct Ht as (t0 & <- & _).
  destruct (Nat.eqb_spec (t_journalId t0) journalId) as [_|Hne]; [reflexivity|].
  contradiction.
Qed.

(** C4. [voidJournal] succeeds exactly when a journal with the given id and
    [voided = false] exists.  On success that journal gets [voided = true]
    and the given [voidReason], every entry of the journal gets
    [voided = true], and nothing else changes.  Otherwise (no such journal,
    or already voided) it fails with [ValidationError] and the store is
    unchanged. *)
Theorem voidJournal_spec (journalId : ObjectId) (reason : string) (s : Store) :
  ((exists j, In j (journals s) /\ live_journal journalId j) ->
   exists s' js1 j js2,
     voidJournal journalId reason s = (Ok true, s') /\
     journals s = js1 ++ j :: js2 /\ live_journal journalId j /\
     (forall j', In j' js1 -> ~ live_journal journalId j') /\
     journals s' = js1 ++ set_journal_voided reason (clock s) j :: js2 /\
     j_voided (set_journal_voided reason (clock s) j) = true /\
     j_voidReason (set_journal_voided reason (clock s) j) = Some reason /\
     Forall2 (cascaded journalId (clock s)) (transactions s) (transactions s') /\
     (forall t, In t (transactions s') -> t_journalId t = journalId -> t_voided t = true) /\
     accounts s' = accounts s)
  /\
  (~ (exists j, In j (journals s) /\ live_journal journalId j) ->
   voidJournal journalId reason s = (Throw ValidationError, s)).
Proof.
  split; [|apply voidJournal_dead].
  intros Hlive.
  destruct (voidJournal_live journalId reason s Hlive)
    as (js1 & j & js2 & Hsplit & Hj & Hjs1 & Hrun).
  eexists _, js1, j, js2.
  split; [exact Hrun|]. simpl.
  do 3 (split; [assumption|]).
  do 3 (split; [reflexivity|]).
  split; [apply update_many_cascaded|]. split; [|reflexivity].
  apply update_many_voided.
Qed.

(** *** getAccountBalance *)

(** C10. When no non-voided entry matches the query, [getAccountBalance]
    returns zero balance, debit and credit whether or not the account
    exists; it never raises [AccountNotFoundError]; it fails exactly when
    some entry matches and the account record is absent, and then with a
    plain [Error]. *)
Theorem getAccountBalance_unknown_account (data : BalanceQuery) (s : Store) :
  (filter (balance_match data) (transactions s) = [] ->
   getAccountBalance data s = (Ok (mkAccountBalanceResult 0 0 0), s)) /\
  ((forall t, In t (transactions s) -> t_accountKey t <> bq_accountKey data) ->
   getAccountBalance data s = (Ok (mkAccountBalanceResult 0 0 0), s)) /\
  (forall s', getAccountBalance data s <> (Throw AccountNotFoundError, s')) /\
  (forall e s', getAccountBalance data s = (Throw e, s') <->
     e = PlainError /\ s' = s /\
     filter (balance_match data) (transactions s) <> [] /\
     findAccount (bq_accountKey data) (accounts s) = None).
Proof.
  assert (H0 : filter (balance_match data) (transactions s) = [] ->
               getAccountBalance data s = (Ok (mkAccountBalanceResult 0 0 0), s)).
  { intros H. unfold getAccountBalance, bind, get_store. now rewrite H. }
  assert (H1 : forall e s', getAccountBalance data s = (Throw e, s') <->
     e = PlainError /\ s' = s /\
     filter (balance_match data) (transactions s) <> [] /\
     findAccount (bq_accountKey data) (accounts s) = None).
  { intros e s'. unfold getAccountBalance, bind, get_store.
    destruct (filter (balance_match data) (transactions s)) as [|t l] eqn:E.
    - unfold ret. split; [discriminate|]. intros (_ & _ & H & _). now elim H.
    - destruct (findAccount (bq_accountKey data) (accounts s)) as [a|].
      + unfold ret. split; [discriminate|]. intros (_ & _ & _ & H). discriminate.
      + unfold throw. split.
        * intros [= <- <-]. repeat split; discriminate.
        * intros (-> & -> & _). reflexivity. }
  split; [exact H0|]. split; [|split; [|exact H1]].
  - intros Hk. apply H0.
    destruct (filter (balance_match data) (transactions s)) as [|t l] eqn:E;
      [reflexivity|].
    assert (Ht : In t (filter (balance_match data) (transactions s)))
      by (rewrite E; now left).
    apply filter_In in Ht. destruct Ht as (Hin & Hm).
    unfold balance_match in Hm. rewrite !andb_true_iff in Hm.
    destruct Hm as (((Hm & _) & _) & _). apply String.eqb_eq in Hm.
    now elim (Hk t Hin).
  - intros s' H. apply H1 in H. destruct H as (H & _). discriminate.
Qed.

Lemma getAccountBalance_store data s : snd (getAccountBalance data s) = s.
Proof.
  unfold getAccountBalance, bind, get_store.
  destruct (filter _ _); [reflexivity|].
  now destruct (findAccount _ _).
Qed.

Lemma getAccountBalance_known data s account :
  findAccount (bq_accountKey data) (accounts s) = Some account ->
  exists res, getAccountBalance data s = (Ok res, s).
Proof.
  intros H. unfold getAccountBalance, bind, get_store.
  destruct (filter _ _); [now eexists|]. rewrite H. now eexists.
Qed.

(** *** Stores reached by the operations *)

Lemma extends_refl s : extends s s.
Proof.
  split; [lia|]. exists []. rewrite app_nil_r. repeat split; constructor.
Qed.

Lemma StronglySorted_app_lt (l1 l2 : list nat) :
  StronglySorted lt l1 -> StronglySorted lt l2 ->
  (forall x y, In x l1 -> In y l2 -> x < y)%nat ->
  StronglySorted lt (l1 ++ l2).
Proof.
  induction l1 as [|a l1 IH]; simpl; intros H1 H2 H; [exact H2|].
  inversion H1 as [|? ? Hs Hall]; subst.
  constructor.
  - apply IH; [exact Hs|exact H2|]. intros x y Hx Hy. apply H; [now right|exact Hy].
  - apply Forall_app. split; [exact Hall|].
    apply Forall_forall. intros y Hy. apply H; [now left|exact Hy].
Qed.

Lemma extends_trans s1 s2 s3 : extends s1 s2 -> extends s2 s3 -> extends s1 s3.
Proof.
  intros (H1 & n1 & E1 & S1 & F1) (H2 & n2 & E2 & S2 & F2).
  split; [lia|]. exists (n1 ++ n2).
  split; [now rewrite E2, E1, app_assoc|].
  rewrite Forall_forall in F1, F2.
  split.
  - apply StronglySorted_app_lt; [exact S1|exact S2|].
    intros x y Hx Hy. apply F1 in Hx. apply F2 in Hy. lia.
  - apply Forall_app. split; apply Forall_forall; intros x Hx.
    + apply F1 in Hx. lia.
    + apply F2 in Hx. lia.
Qed.

Lemma extends_ids_increasing s s' : ids_increasing s -> extends s s' -> ids_increasing s'.
Proof.
  intros (Hs & Hb) (Hn & new & E & Snew & Fnew).
  rewrite Forall_forall in Fnew.
  assert (Hold : forall i, In i (map t_id (transactions s)) -> (i < next_oid s)%nat).
  { intros i Hi. apply in_map_iff in Hi. destruct Hi as (t & <- & Ht). now apply Hb. }
  split.
  - rewrite E. apply StronglySorted_app_lt; [exact Hs|exact Snew|].
    intros x y Hx Hy. apply Hold in Hx. apply Fnew in Hy. lia.
  - intros t Ht. apply (in_map t_id) in Ht. rewrite E in Ht.
    apply in_app_or in Ht. destruct Ht as [Ht|Ht].
    + apply Hold in Ht. lia.
    + apply Fnew in Ht. lia.
Qed.

(** A step that keeps the entries and does not lower the counter. *)
Lemma extends_same s s' :
  transactions s' = transactions s -> (next_oid s <= next_oid s')%nat -> extends s s'.
Proof.
  intros Ht Hn. split; [exact Hn|]. exists []. rewrite Ht, app_nil_r.
  repeat split; constructor.
Qed.

Lemma grows_ret {A} (a : A) : grows (ret a).
Proof. intros s. apply extends_refl. Qed.

Lemma grows_throw {A} e : grows (@throw A e).
Proof. intros s. apply extends_refl. Qed.

Lemma grows_bind {A B} (m : M A) (k : A -> M B) :
  grows m -> (forall a, grows (k a)) -> grows (bind m k).
Proof.
  intros Hm Hk s. unfold bind. specialize (Hm s).
  destruct (m s) as [[a|e] s1]; simpl in *; [|exact Hm].
  eapply extends_trans; [exact Hm|apply Hk].
Qed.

Lemma grows_when_throw b e : grows (when_throw b e).
Proof. destruct b; [apply grows_throw|apply grows_ret]. Qed.

Lemma grows_get_store : grows get_store.
Proof. intros s. apply extends_refl. Qed.

Lemma grows_new_Date : grows new_Date.
Proof. intros s. apply extends_refl. Qed.

Lemma grows_new_ObjectId : grows new_ObjectId.
Proof. intros s. apply extends_same; simpl; [reflexivity|lia]. Qed.

Lemma grows_set_accounts f : grows (set_accounts f).
Proof. intros s. now apply extends_same. Qed.

Lemma grows_set_journals f : grows (set_journals f).
Proof. intros s. now apply extends_same. Qed.

Lemma grows_findOneAndUpdate_journal p f : grows (findOneAndUpdate_journal p f).
Proof.
  intros s. unfold findOneAndUpdate_journal.
  destruct (update_first p f (journals s)). now apply extends_same.
Qed.

Lemma grows_findOneAndUpdate_account p f : grows (findOneAndUpdate_account p f).
Proof.
  intros s. unfold findOneAndUpdate_account.
  destruct (update_first p f (accounts s)). now apply extends_same.
Qed.

(** An [updateMany] that keeps the ids of the entries. *)
Lemma grows_update_many p f :
  (forall t, t_id (f t) = t_id t) -> grows (set_transactions (update_many p f)).
Proof.
  intros Hf s. split; [simpl; lia|]. exists []. simpl. rewrite app_nil_r.
  split; [|split; constructor].
  unfold update_many. rewrite map_map. apply map_ext.
  intros t. destruct (p t); [apply Hf|reflexivity].
Qed.

Lemma grows_mapM {A B} (f : A -> M B) l : (forall x, grows (f x)) -> grows (mapM f l).
Proof.
  intros Hf. induction l as [|x l IH]; simpl; [apply grows_ret|].
  apply grows_bind; [apply Hf|]. intros y.
  apply grows_bind; [exact IH|]. intros ys. apply grows_ret.
Qed.

Create HintDb grows.

#[local] Hint Resolve grows_ret grows_throw grows_when_throw grows_get_store grows_new_Date
  grows_new_ObjectId grows_set_accounts grows_set_journals grows_findOneAndUpdate_journal
  grows_findOneAndUpdate_account : grows.

Ltac grow :=
  repeat first
    [ apply grows_bind; [|intro]
    | solve [auto with grows]
    | match goal with
      | |- grows (match ?x with _ => _ end) => destruct x
      | |- grows (if ?b then _ else _) => destruct b
      | |- grows (let (_, _) := ?x in _) => destruct x
      end ].

Lemma grows_voidJournal journalId reason : grows (voidJournal journalId reason).
Proof.
  unfold voidJournal. grow. now apply grows_update_many.
Qed.

Lemma grows_voidJournalsByIdentifier identifier reason :
  grows (voidJournalsByIdentifier identifier reason).
Proof.
  unfold voidJournalsByIdentifier. grow. now apply grows_update_many.
Qed.

Lemma grows_validateAccountStructure data : grows (validateAccountStructure data).
Proof. unfold validateAccountStructure. grow. Qed.

Lemma grows_validateParent key parentKey : grows (validateParent key parentKey).
Proof. unfold validateParent. grow. Qed.

Lemma grows_createAccount data : grows (createAccount data).
Proof.
  unfold createAccount, insertOne_account.
  apply grows_bind; [apply grows_validateAccountStructure|intro]. grow.
Qed.

Lemma grows_updateAccount data : grows (updateAccount data).
Proof.
  unfold updateAccount. destruct (ua_key data); [|apply grows_throw].
  apply grows_bind; [apply grows_when_throw|intro].
  apply grows_bind; [apply grows_new_Date|intro].
  apply grows_bind.
  - destruct (ua_parentAccountKey data); [apply grows_validateParent|apply grows_ret].
  - intro. grow.
Qed.

Lemma grows_seedAccounts accts : grows (seedAccounts accts).
Proof.
  unfold seedAccounts.
  apply grows_bind; [apply grows_mapM; intros x; unfold seedDoc; grow|intro].
  apply grows_bind; [apply grows_mapM; intros x; apply grows_set_accounts|intro].
  grow.
Qed.

Lemma grows_ensureOpeningBalanceOffsetAccount k :
  grows (ensureOpeningBalanceOffsetAccount k).
Proof. unfold ensureOpeningBalanceOffsetAccount, insertOne_account. grow. Qed.

Lemma grows_voidExistingOpeningBalance k : grows (voidExistingOpeningBalance k).
Proof.
  unfold voidExistingOpeningBalance.
  apply grows_bind; [apply grows_get_store|intro].
  destruct (find _ _); [|apply grows_ret].
  apply grows_bind; [apply grows_voidJournal|intro; apply grows_ret].
Qed.

(** The entries that [postJournal] builds draw consecutive ids from the
    counter. *)
Lemma mapM_transactionDoc_ids m j d now lines : forall s r s',
  mapM (transactionDoc m j d now) lines s = (r, s') ->
  transactions s' = transactions s /\ journals s' = journals s /\
  accounts s' = accounts s /\ clock s' = clock s /\
  (next_oid s <= next_oid s')%nat /\
  match r with
  | Ok docs => map t_id docs = seq (next_oid s) (List.length lines) /\
               next_oid s' = (next_oid s + List.length lines)%nat
  | Throw _ => True
  end.
Proof.
  induction lines as [|l ls IH]; intros s r s'; simpl.
  - unfold ret. intros [= <- <-]. repeat split; lia.
  - unfold bind at 1. unfold transactionDoc at 1.
    destruct (map_get (li_accountKey l) m) as [a|].
    + unfold bind at 1, new_ObjectId at 1, ret at 1. unfold bind at 1.
      destruct (mapM _ ls _) as [[ys|e] s2] eqn:E; apply IH in E; simpl in E;
        destruct E as (Ht & Hj & Ha & Hc & Hn & Hr).
      * unfold ret. intros [= <- <-]. simpl. destruct Hr as (Hids & Hnext).
        repeat split; try assumption; try lia. now rewrite Hids.
      * intros [= <- <-]. repeat split; try assumption; lia.
    + unfold throw. intros [= <- <-]. repeat split; lia.
Qed.

Lemma StronglySorted_seq a n : StronglySorted lt (seq a n).
Proof.
  revert a. induction n as [|n IH]; intros a; simpl; constructor; [apply IH|].
  apply Forall_forall. intros x Hx. apply in_seq in Hx. lia.
Qed.

Lemma grows_postJournal data : grows (postJournal data).
Proof.
  intros s. unfold postJournal, lines_of.
  destruct (pj_lines data) as [l|]; [|run; apply extends_refl].
  destruct (List.length l <? 2)%nat; [run; apply extends_refl|].
  destruct (pj_datetime data) as [datetime|]; [|run; apply extends_refl].
  destruct (pj_memo data) as [memo|]; [|run; apply extends_refl].
  destruct (truthy (Some memo)); [|run; apply extends_refl].
  destruct (check_lines _ _) as [e|acc]; [run; apply extends_refl|].
  destruct (num_eq _ _); [|run; apply extends_refl].
  run.
  destruct (0 <? List.length (filter _ (accountKeys acc)))%nat; [apply extends_refl|].
  destruct (0 <? List.length (filter _ (filter _ (accounts s))))%nat; [apply extends_refl|].
  match goal with
  | |- context [mapM ?f l ?s1] =>
      destruct (mapM f l s1) as [[docs|e1] s2] eqn:E; apply mapM_transactionDoc_ids in E;
        simpl in E; destruct E as (Ht & Hj & Ha & Hc & Hn & Hr)
  end; simpl.
  - destruct Hr as (Hids & Hnext). split; [simpl; lia|].
    exists (map t_id docs). simpl. rewrite Ht, map_app. split; [reflexivity|].
    rewrite Hids. split; [apply StronglySorted_seq|].
    apply Forall_forall. intros x Hx. apply in_seq in Hx. lia.
  - apply extends_same; [exact Ht|lia].
Qed.

Lemma grows_applyOpeningBalance data : grows (applyOpeningBalance data).
Proof.
  unfold applyOpeningBalance. destruct (ob_amount data); [|apply grows_throw].
  apply grows_bind; [apply grows_when_throw|intro].
  apply grows_bind; [apply grows_get_store|intro].
  destruct (findAccount _ _); [|apply grows_throw].
  apply grows_bind; [apply grows_when_throw|intro].
  apply grows_bind; [apply grows_voidExistingOpeningBalance|intro].
  destruct (num_eq _ _); [apply grows_ret|].
  apply grows_bind; [apply grows_ensureOpeningBalanceOffsetAccount|intro].
  apply grows_bind; [apply grows_new_Date|intro].
  apply grows_bind; [apply grows_postJournal|intro]. apply grows_ret.
Qed.

(** In every store that the operations reach, the entries are stored with
    increasing ids. *)
Lemma reachable_ids_increasing s : reachable s -> ids_increasing s.
Proof.
  induction 1 as [now|s now _ IH|s accts _ IH|s data _ IH|s data _ IH|s key _ IH
                 |s data _ IH|s data _ IH|s journalId reason _ IH
                 |s identifier reason _ IH].
  - split; [constructor|intros t []].
  - exact IH.
  - eapply extends_ids_increasing; [exact IH|apply grows_seedAccounts].
  - eapply extends_ids_increasing; [exact IH|apply grows_createAccount].
  - eapply extends_ids_increasing; [exact IH|apply grows_updateAccount].
  - eapply extends_ids_increasing; [exact IH|apply grows_updateAccount].
  - eapply extends_ids_increasing; [exact IH|apply grows_applyOpeningBalance].
  - eapply extends_ids_increasing; [exact IH|apply grows_postJournal].
  - eapply extends_ids_increasing; [exact IH|apply grows_voidJournal].
  - eapply extends_ids_increasing; [exact IH|apply grows_voidJournalsByIdentifier].
Qed.
(** *** getAccountLedger *)

Section Sorting.
Context {A : Type} (leb : A -> A -> bool).

Lemma insert_sorted_perm x l : Permutation (insert_sorted leb x l) (x :: l).
Proof.
  induction l as [|y l IH]; simpl; [reflexivity|].
  destruct (leb x y); [reflexivity|].
  rewrite IH. apply perm_swap.
Qed.

Lemma sort_by_perm l : Permutation (sort_by leb l) l.
Proof.
  induction l as [|x l IH]; simpl; [reflexivity|].
  rewrite insert_sorted_perm. now constructor.
Qed.

Hypothesis leb_total : forall x y, leb x y = false -> leb y x = true.

Lemma insert_sorted_sorted x l :
  Sorted (fun a b => leb a b = true) l ->
  Sorted (fun a b => leb a b = true) (insert_sorted leb x l).
Proof.
  induction l as [|y l IH]; simpl; intros Hs.
  - repeat constructor.
  - destruct (leb x y) eqn:E.
    + constructor; [exact Hs|]. now constructor.
    + inversion Hs as [|? ? Hs' Hhd]; subst.
      constructor; [now apply IH|].
      destruct l as [|z l]; simpl.
      * constructor. now apply leb_total.
      * destruct (leb x z); constructor; [now apply leb_total|].
        now inversion Hhd.
Qed.

Lemma sort_by_sorted l : Sorted (fun a b => leb a b = true) (sort_by leb l).
Proof.
  induction l as [|x l IH]; simpl; [constructor|].
  now apply insert_sorted_sorted.
Qed.
End Sorting.

Lemma ledger_leb_total x y : ledger_leb x y = false -> ledger_leb y x = true.
Proof.
  unfold ledger_leb.
  rewrite orb_false_iff, andb_false_iff, orb_true_iff, andb_true_iff.
  rewrite !Z.ltb_ge, !Z.ltb_lt, !Z.eqb_neq, !Z.eqb_eq, Nat.leb_gt, Nat.leb_le.
  lia.
Qed.

Lemma ledger_leb_datetime x y :
  ledger_leb x y = true -> (t_datetime x <= t_datetime y)%Z.
Proof.
  unfold ledger_leb.
  rewrite orb_true_iff, andb_true_iff, Z.ltb_lt, Z.eqb_eq. lia.
Qed.

Lemma sort_by_ledger_time_ordered l :
  StronglySorted (fun x y => (t_datetime x <= t_datetime y)%Z) (sort_by ledger_leb l).
Proof.
  apply Sorted_StronglySorted.
  - intros x y z. apply Z.le_trans.
  - pose proof (sort_by_sorted ledger_leb ledger_leb_total l) as H.
    induction H as [|x l' Hs IH Hhd]; constructor; [exact IH|].
    destruct Hhd; constructor. now apply ledger_leb_datetime.
Qed.

(** Entries with the same datetime keep their insertion order. *)
Lemma insert_sorted_stable d x l :
  Forall (fun y => (t_id x < t_id y)%nat) l ->
  filter (at_time d) (insert_sorted ledger_leb x l) = filter (at_time d) (x :: l).
Proof.
  induction l as [|y l IH]; intros Hall; [reflexivity|].
  inversion Hall as [|? ? Hxy Hall']; subst.
  cbn [insert_sorted]. destruct (ledger_leb x y) eqn:E; [reflexivity|].
  cbn [filter]. rewrite (IH Hall'). cbn [filter].
  unfold ledger_leb in E.
  rewrite orb_false_iff, andb_false_iff, Z.ltb_ge, Z.eqb_neq, Nat.leb_gt in E.
  unfold at_time.
  destruct (Z.eqb_spec (t_datetime y) d), (Z.eqb_spec (t_datetime x) d);
    try reflexivity.
  lia.
Qed.

Lemma sort_by_ledger_stable d l :
  StronglySorted lt (map t_id l) ->
  filter (at_time d) (sort_by ledger_leb l) = filter (at_time d) l.
Proof.
  induction l as [|x l IH]; intros Hs; [reflexivity|].
  simpl in Hs. inversion Hs as [|? ? Hs' Hall]; subst.
  cbn [sort_by fold_right]. fold (sort_by ledger_leb l).
  rewrite insert_sorted_stable.
  - cbn [filter]. now rewrite (IH Hs').
  - rewrite Forall_forall in *. intros y Hy.
    apply Hall, in_map.
    eapply Permutation_in; [apply sort_by_perm|exact Hy].
Qed.

Lemma filter_ids_increasing (p : TransactionLine -> bool) l :
  StronglySorted lt (map t_id l) -> StronglySorted lt (map t_id (filter p l)).
Proof.
  induction l as [|x l IH]; intros Hs; [constructor|].
  simpl in Hs. inversion Hs as [|? ? Hs' Hall]; subst. simpl.
  destruct (p x); [|now apply IH].
  simpl. constructor; [now apply IH|].
  rewrite Forall_forall in *. intros y Hy. apply Hall.
  apply in_map_iff in Hy. destruct Hy as (t & <- & Ht).
  apply in_map. apply filter_In in Ht. tauto.
Qed.

Lemma getNetBalance_netChange account t :
  getNetBalance (t_debit t) (t_credit t) (a_type account) (a_parentGroup account)
  = netChange account t.
Proof. reflexivity. Qed.

Lemma ledgerItems_item account l : forall b,
  map item (ledgerItems account b l) = l.
Proof. induction l as [|t l IH]; intros b; simpl; [|rewrite IH]; reflexivity. Qed.

Lemma ledgerItems_running account l : forall b n it,
  nth_error (ledgerItems account b l) n = Some it ->
  runningBalance it = running account b (firstn (S n) l).
Proof.
  induction l as [|t l IH]; intros b n it; simpl.
  - destruct n; discriminate.
  - destruct n as [|n]; simpl.
    + intros [= <-]. reflexivity.
    + intros H. apply IH in H. exact H.
Qed.

Lemma filter_selection {A} (P : A -> Prop) (p : A -> bool) l :
  (forall x, p x = true <-> P x) -> selection P l (filter p l).
Proof.
  intros H. induction l as [|x l IH]; simpl; [constructor|].
  destruct (p x) eqn:E.
  - constructor; [now apply H|exact IH].
  - constructor; [|exact IH]. rewrite <- H, E. discriminate.
Qed.

Lemma selection_unique {A} (P : A -> Prop) l l1 l2 :
  selection P l l1 -> selection P l l2 -> l1 = l2.
Proof.
  intros H1. revert l2. induction H1 as [|x l l1 Hx _ IH|x l l1 Hx _ IH]; intros l2 H2;
    inversion H2; subst; try reflexivity; try contradiction.
  - f_equal. now apply IH.
  - now apply IH.
Qed.

Lemma listed_iff data t : balance_match (ledger_query data) t = true <-> listed data t.
Proof.
  unfold balance_match, ledger_query, listed, in_range; simpl.
  rewrite !andb_true_iff, String.eqb_eq, negb_true_iff.
  destruct (lq_from data) as [f|], (lq_to data) as [u|];
    rewrite ?Z.leb_le; split.
  - intros (((Hk & Hv) & Hf & Hu) & Hm). repeat split; try assumption.
    + now intros ? [= <-].
    + now intros ? [= <-].
  - intros (Hk & Hv & Hf & Hu & Hm). repeat split; auto.
  - intros (((Hk & Hv) & Hf & _) & Hm). repeat split; try assumption.
    + now intros ? [= <-].
    + discriminate.
  - intros (Hk & Hv & Hf & Hu & Hm). repeat split; auto.
  - intros (((Hk & Hv) & _ & Hu) & Hm). repeat split; try assumption.
    + discriminate.
    + now intros ? [= <-].
  - intros (Hk & Hv & Hf & Hu & Hm). repeat split; auto.
  - intros (((Hk & Hv) & _ & _) & Hm). repeat split; try assumption; discriminate.
  - intros (Hk & Hv & Hf & Hu & Hm). repeat split; auto.
Qed.

Lemma earlier_iff data from t :
  balance_match (opening_query data from) t = true <-> earlier data from t.
Proof.
  unfold balance_match, opening_query, earlier, in_range; simpl.
  rewrite !andb_true_iff, String.eqb_eq, negb_true_iff, Z.leb_le.
  intuition lia.
Qed.

(** The balance that [getAccountBalance] returns for an account of the
    chart. *)
Lemma getAccountBalance_balance data s account :
  findAccount (bq_accountKey data) (accounts s) = Some account ->
  exists res, getAccountBalance data s = (Ok res, s) /\
              balance res = balance_of account (filter (balance_match data) (transactions s)).
Proof.
  intros H. unfold getAccountBalance, bind, get_store.
  destruct (filter _ _) as [|t l].
  - eexists. split; [reflexivity|]. unfold balance_of.
    destruct (isDebitNormal account); reflexivity.
  - rewrite H. eexists. split; reflexivity.
Qed.

(** C5. In a store that the operations of the package have reached, and for
    an account of the chart, [getAccountLedger] takes as opening balance the
    balance of the account over its non-voided entries strictly before
    [from], which is the balance that [getAccountBalance] returns up to
    [from - 1] (zero when no [from] is given); it lists the non-voided
    entries of the account in the period that match the meta filter, in
    ascending datetime order, entries with equal datetime in insertion
    order, and returns the requested page of them with the count of all;
    and the running balance of the n-th returned entry is the opening
    balance folded with the rounded net changes of the first n entries of
    the page. *)
Theorem getAccountLedger_spec (data : LedgerQuery) (s : Store) (account : Account) :
  reachable s ->
  findAccount (lq_accountKey data) (accounts s) = Some account ->
  exists before matching sorted opening res,
    getAccountLedger data s = (Ok res, s) /\
    match lq_from data with
    | None => opening = 0
    | Some from =>
        selection (earlier data from) (transactions s) before /\
        opening = balance_of account before /\
        exists pre, getAccountBalance (opening_query data from) s = (Ok pre, s) /\
                    opening = balance pre
    end /\
    selection (listed data) (transactions s) matching /\
    Permutation sorted matching /\
    StronglySorted (fun x y => (t_datetime x <= t_datetime y)%Z) sorted /\
    (forall d, filter (at_time d) sorted = filter (at_time d) matching) /\
    total res = List.length matching /\
    page res = or_default (lq_page data) 1 /\
    pageSize res = or_default (lq_pageSize data) 50 /\
    map item (items res)
      = firstn (pageSize res) (skipn ((page res - 1) * pageSize res) sorted) /\
    (forall n it, nth_error (items res) n = Some it ->
       runningBalance it = running account opening (firstn (S n) (map item (items res)))).
Proof.
  intros Hreach Hacc.
  destruct (reachable_ids_increasing s Hreach) as (Hids & _).
  set (matched := filter (balance_match (ledger_query data)) (transactions s)).
  set (before := match lq_from data with
                 | Some from => filter (balance_match (opening_query data from))
                                       (transactions s)
                 | None => []
                 end).
  assert (Hopen : exists opening,
    (match lq_from data with
     | Some from =>
         preRes <- getAccountBalance (opening_query data from) ;; ret (balance preRes)
     | None => ret 0
     end) s = (Ok opening, s) /\
    match lq_from data with
    | None => opening = 0
    | Some from =>
        selection (earlier data from) (transactions s) before /\
        opening = balance_of account before /\
        exists pre, getAccountBalance (opening_query data from) s = (Ok pre, s) /\
                    opening = balance pre
    end).
  { unfold before. destruct (lq_from data) as [from|].
    - destruct (getAccountBalance_balance (opening_query data from) s account Hacc)
        as (pre & Hpre & Hbal).
      exists (balance pre). split.
      + unfold bind. now rewrite Hpre.
      + split; [apply filter_selection; intros t; apply earlier_iff|].
        split; [exact Hbal|]. now exists pre.
    - exists 0. now split. }
  destruct Hopen as (opening & Hrun & Hopening).
  exists before, matched, (sort_by ledger_leb matched), opening.
  eexists. split.
  { unfold getAccountLedger. fold (opening_query data).
    rewrite (bind_ok _ _ _ _ _ Hrun).
    unfold bind, get_store. fold (ledger_query data). fold matched.
    rewrite Hacc. reflexivity. }
  cbn [items page pageSize total].
  split; [exact Hopening|].
  split; [apply filter_selection; intros t; apply listed_iff|].
  split; [apply sort_by_perm|].
  split; [apply sort_by_ledger_time_ordered|].
  split.
  { intros d. apply sort_by_ledger_stable. now apply filter_ids_increasing. }
  split; [reflexivity|]. split; [reflexivity|]. split; [reflexivity|].
  split; [apply ledgerItems_item|].
  intros n it Hn. rewrite ledgerItems_item. now apply ledgerItems_running.
Qed.

(** *** Sums of rationals *)

Local Open Scope Q_scope.

Lemma qsum_cons {A} (f : A -> Q) x l : qsum f (x :: l) = f x + qsum f l.
Proof. reflexivity. Qed.

Lemma qsum_ext {A} (f g : A -> Q) l :
  (forall x, In x l -> f x == g x) -> qsum f l == qsum g l.
Proof.
  induction l as [|x l IH]; intros H; [reflexivity|].
  rewrite !qsum_cons, IH, (H x); [reflexivity|now left|].
  intros y Hy. apply H. now right.
Qed.

Lemma qsum_plus {A} (f g : A -> Q) l :
  qsum (fun x => f x + g x) l == qsum f l + qsum g l.
Proof.
  induction l as [|x l IH]; [reflexivity|].
  rewrite !qsum_cons, IH. ring.
Qed.

Lemma qsum_minus {A} (f g : A -> Q) l :
  qsum (fun x => f x - g x) l == qsum f l - qsum g l.
Proof.
  induction l as [|x l IH]; [reflexivity|].
  rewrite !qsum_cons, IH. ring.
Qed.

Lemma qsum_zero {A} (l : list A) : qsum (fun _ => 0) l == 0.
Proof.
  induction l as [|x l IH]; [reflexivity|]. rewrite qsum_cons, IH. ring.
Qed.

Lemma qsum_map {A B} (g : A -> B) (f : B -> Q) l :
  qsum f (map g l) = qsum (fun x => f (g x)) l.
Proof.
  induction l as [|x l IH]; [reflexivity|].
  simpl map. now rewrite !qsum_cons, IH.
Qed.

(** Summing class by class.  The classes are given by a key with a boolean
    equality. *)
Section Partition.
Context {A K : Type} (key : A -> K) (eqb : K -> K -> bool).
Hypothesis eqb_spec : forall a b, reflect (a = b) (eqb a b).

Lemma qsum_indicator (k0 : K) (v : Q) (ks : list K) :
  NoDup ks -> In k0 ks ->
  qsum (fun k => if eqb k0 k then v else 0) ks == v.
Proof.
  induction ks as [|k ks IH]; intros Hnd Hin; [contradiction|].
  inversion Hnd as [|? ? Hnotin Hnd']; subst.
  rewrite qsum_cons.
  destruct (eqb_spec k0 k) as [->|Hne].
  - rewrite (qsum_ext _ (fun _ => 0)), qsum_zero; [ring|].
    intros k' Hk'. destruct (eqb_spec k k') as [->|]; [contradiction|reflexivity].
  - destruct Hin as [->|Hin]; [contradiction|]. rewrite IH by assumption. ring.
Qed.

Lemma qsum_classes (f : A -> Q) (ks : list K) (l : list A) :
  NoDup ks -> (forall x, In x l -> In (key x) ks) ->
  qsum (fun k => qsum f (class key eqb k l)) ks == qsum f l.
Proof.
  intros Hnd. induction l as [|x l IH]; intros Hall.
  - unfold class; simpl. apply qsum_zero.
  - rewrite (qsum_ext _ (fun k => (if eqb (key x) k then f x else 0)
                                  + qsum f (class key eqb k l))).
    + rewrite qsum_plus, qsum_indicator, IH, qsum_cons; try assumption.
      * reflexivity.
      * intros y Hy. apply Hall. now right.
      * apply Hall. now left.
    + intros k _. unfold class; simpl.
      destruct (eqb (key x) k); [reflexivity|ring].
Qed.

(** Two quantities that agree on every class agree on the whole. *)
Lemma qsum_classwise (f g : A -> Q) (l : list A) :
  (forall k, qsum f (class key eqb k l) == qsum g (class key eqb k l)) ->
  qsum f l == qsum g l.
Proof.
  intros H.
  assert (Hdec : forall a b : K, {a = b} + {a <> b}).
  { intros a b. destruct (eqb_spec a b); [now left|now right]. }
  rewrite <- (qsum_classes f (nodup Hdec (map key l)) l),
          <- (qsum_classes g (nodup Hdec (map key l)) l).
  - apply qsum_ext. intros k _. apply H.
  - apply NoDup_nodup.
  - intros x Hx. apply nodup_In. now apply in_map.
  - apply NoDup_nodup.
  - intros x Hx. apply nodup_In. now apply in_map.
Qed.
End Partition.

Local Close Scope Q_scope.

(** *** Equal exact values *)

Lemma is_finite_spec (x : number) :
  is_finite x = true ->
  match Prim2SF x with
  | S754_zero _ | S754_finite _ _ _ => True
  | _ => False
  end.
Proof.
  unfold is_finite, is_infinity. rewrite negb_true_iff, orb_false_iff.
  intros (Hnan & Hinf). apply not_true_iff_false in Hnan. rewrite is_nan_spec in Hnan.
  rewrite FloatAxioms.eqb_spec, abs_spec in Hinf.
  destruct (Prim2SF x) as [s|s| |s m e]; simpl in *; try exact I.
  - discriminate.
  - now elim Hnan.
Qed.

Lemma digits2_pos_log2 (m : positive) : Z.pos (digits2_pos m) = (Z.log2 (Z.pos m) + 1)%Z.
Proof.
  induction m as [m IH|m IH|]; simpl; try reflexivity; rewrite Pos2Z.inj_succ, IH;
    destruct m; simpl; lia.
Qed.

Lemma Qpower_2_shift (e : Z) :
  (-1074 <= e)%Z -> (2 ^ e * inject_Z (2 ^ 1074) == inject_Z (2 ^ (e + 1074)))%Q.
Proof.
  intros He. rewrite !Zpower_Qpower by lia.
  change (inject_Z 2) with 2%Q. rewrite Qpower_plus by discriminate. reflexivity.
Qed.

(** A canonical mantissa and exponent are determined by their value. *)
Lemma canonical_unique (m1 m2 : positive) (e1 e2 : Z) :
  valid_binary (S754_finite false m1 e1) = true ->
  valid_binary (S754_finite false m2 e2) = true ->
  (inject_Z (Z.pos m1) * 2 ^ e1 == inject_Z (Z.pos m2) * 2 ^ e2)%Q ->
  e1 = e2 /\ m1 = m2.
Proof.
  unfold SpecFloat.valid_binary, bounded, canonical_mantissa, fexp, SpecFloat.emin.
  rewrite !andb_true_iff, !Z.eqb_eq, !Z.leb_le, !digits2_pos_log2.
  change prec with 53%Z. change emax with 1024%Z.
  intros (Hc1 & Hb1) (Hc2 & Hb2) Hv.
  change IntDef.Z.max with Z.max in Hc1, Hc2.
  assert (He1 : (-1074 <= e1)%Z) by lia. assert (He2 : (-1074 <= e2)%Z) by lia.
  assert (Hz : (Z.pos m1 * 2 ^ (e1 + 1074) = Z.pos m2 * 2 ^ (e2 + 1074))%Z).
  { apply inject_Z_injective.
    rewrite !inject_Z_mult, <- !Qpower_2_shift by assumption.
    rewrite !Qmult_assoc, Hv. reflexivity. }
  assert (Hcase : forall ma mb ea eb,
            (ea <= eb)%Z -> (-1074 <= ea)%Z ->
            (Z.pos ma * 2 ^ (ea + 1074) = Z.pos mb * 2 ^ (eb + 1074))%Z ->
            Z.pos ma = (Z.pos mb * 2 ^ (eb - ea))%Z).
  { intros ma mb ea eb Hle Hea H.
    replace (eb + 1074)%Z with ((eb - ea) + (ea + 1074))%Z in H by lia.
    rewrite (Z.pow_add_r 2 (eb - ea) (ea + 1074)), Z.mul_assoc in H by lia.
    apply Z.mul_cancel_r in H; [exact H|]. apply Z.pow_nonzero; lia. }
  destruct (Z.le_ge_cases e1 e2) as [Hle|Hle].
  - pose proof (Hcase m1 m2 e1 e2 Hle He1 Hz) as H.
    assert (Hlog : Z.log2 (Z.pos m1) = (e2 - e1 + Z.log2 (Z.pos m2))%Z).
    { rewrite H. apply Z.log2_mul_pow2; lia. }
    assert (e1 = e2) by lia. subst e2. split; [reflexivity|].
    rewrite Z.sub_diag in H. simpl in H. lia.
  - symmetry in Hz. pose proof (Hcase m2 m1 e2 e1 Hle He2 Hz) as H.
    assert (Hlog : Z.log2 (Z.pos m2) = (e1 - e2 + Z.log2 (Z.pos m1))%Z).
    { rewrite H. apply Z.log2_mul_pow2; lia. }
    assert (e1 = e2) by lia. subst e2. split; [reflexivity|].
    rewrite Z.sub_diag in H. simpl in H. lia.
Qed.

Lemma Qpower_2_pos (e : Z) : (0 < 2 ^ e)%Q.
Proof. apply Qpower_0_lt. reflexivity. Qed.

Lemma positive_value (m : positive) (e : Z) : (0 < inject_Z (Z.pos m) * 2 ^ e)%Q.
Proof.
  apply Qmult_lt_0_compat; [|apply Qpower_2_pos]. unfold Qlt; simpl. lia.
Qed.

Lemma negative_value (m : positive) (e : Z) : (inject_Z (Z.neg m) * 2 ^ e < 0)%Q.
Proof.
  change (Z.neg m) with (- Z.pos m)%Z. rewrite inject_Z_opp.
  pose proof (positive_value m e). lra.
Qed.

Lemma Prim2SF_zero (x : number) (s : bool) :
  Prim2SF x = S754_zero s -> x = 0 \/ x = (-0)%float.
Proof.
  intros H. destruct s; [right|left]; apply Prim2SF_inj; now rewrite H.
Qed.

(** Two finite numbers of equal exact value are the same number, or two
    zeros. *)
Lemma exact_same (x y : number) :
  is_finite x = true -> is_finite y = true -> (exact x == exact y)%Q ->
  x = y \/ ((x = 0 \/ x = (-0)%float) /\ (y = 0 \/ y = (-0)%float)).
Proof.
  intros Hx Hy. apply is_finite_spec in Hx, Hy.
  pose proof (Prim2SF_valid x) as Vx. pose proof (Prim2SF_valid y) as Vy.
  pose proof (Prim2SF_inj x y) as Hinj.
  pose proof (Prim2SF_zero x) as Hzx. pose proof (Prim2SF_zero y) as Hzy.
  unfold exact.
  destruct (Prim2SF x) as [sx|sx| |sx mx ex], (Prim2SF y) as [sy|sy| |sy my ey];
    try contradiction; intros H.
  - right. split; [now apply (Hzx sx)|now apply (Hzy sy)].
  - exfalso. pose proof (positive_value my ey). pose proof (negative_value my ey).
    destruct sy; lra.
  - exfalso. pose proof (positive_value mx ex). pose proof (negative_value mx ex).
    destruct sx; lra.
  - left. apply Hinj.
    pose proof (positive_value mx ex). pose proof (negative_value mx ex).
    pose proof (positive_value my ey). pose proof (negative_value my ey).
    assert (Hsame : sx = sy) by (destruct sx, sy; try reflexivity; exfalso; lra).
    subst sy.
    destruct (canonical_unique mx my ex ey) as (-> & ->); [exact Vx|exact Vy| |reflexivity].
    destruct sx; [|exact H].
    change (Z.neg mx) with (- Z.pos mx)%Z in H. change (Z.neg my) with (- Z.pos my)%Z in H.
    rewrite !inject_Z_opp in H. lra.
Qed.

Lemma is_finite_eqb (x : number) : is_finite x = true -> (x =? x) = true.
Proof.
  unfold is_finite, is_nan. rewrite negb_true_iff, orb_false_iff, negb_false_iff. tauto.
Qed.

(** Two numbers in which [round] reads the same cents round to the same
    number. *)
Lemma reads_eqb (x y : number) (q : Q) :
  reads x q -> reads y q -> (round x =? round y) = true.
Proof.
  intros (Hsx & Hrx & Hx) (Hsy & Hry & Hy).
  destruct (exact_same (scaled x) (scaled y) Hsx Hsy) as [H|(Hzx & Hzy)].
  - unfold cents in Hx, Hy. now rewrite Hx, Hy.
  - unfold round. fold (scaled x). fold (scaled y). rewrite H.
    apply is_finite_eqb. exact Hry.
  - unfold round. fold (scaled x). fold (scaled y).
    destruct Hzx as [-> | ->], Hzy as [-> | ->]; reflexivity.
Qed.
(** *** Maps and grouping *)

Lemma map_get_set {V} (k k' : string) (v : V) m :
  map_get k (map_set k' v m) = if String.eqb k' k then Some v else map_get k m.
Proof.
  induction m as [|[k0 v0] m IH]; simpl.
  - destruct (String.eqb_spec k' k); reflexivity.
  - destruct (String.eqb_spec k0 k') as [->|Hne]; simpl.
    + destruct (String.eqb_spec k' k); reflexivity.
    + rewrite IH. destruct (String.eqb_spec k0 k) as [->|]; [|reflexivity].
      destruct (String.eqb_spec k' k); [congruence|reflexivity].
Qed.

Lemma account_map_fold accts : forall m k,
  match map_get k (fold_left (fun m a => map_set (a_key a) a m) accts m) with
  | Some a => (In a accts /\ a_key a = k) \/
              (map_get k m = Some a /\ forall a', In a' accts -> a_key a' <> k)
  | None => map_get k m = None /\ forall a', In a' accts -> a_key a' <> k
  end.
Proof.
  induction accts as [|a accts IH]; intros m k; simpl.
  - destruct (map_get k m); [right|]; split; auto.
  - specialize (IH (map_set (a_key a) a m) k).
    destruct (map_get k (fold_left _ accts _)) as [a0|].
    + destruct IH as [[Hin Hk]|[Hget Hnone]]; [left; tauto|].
      rewrite map_get_set in Hget.
      destruct (String.eqb_spec (a_key a) k) as [Hk|Hk].
      * injection Hget as <-. left. tauto.
      * right. split; [exact Hget|]. intros a' [<-|Ha']; auto.
    + destruct IH as [Hget Hnone]. rewrite map_get_set in Hget.
      destruct (String.eqb_spec (a_key a) k) as [Hk|Hk]; [discriminate|].
      split; [exact Hget|]. intros a' [<-|Ha']; auto.
Qed.

(** A key of the chart is found in the account map, with an account of the
    chart that has this key. *)
Lemma account_map_known accts k :
  (exists a, In a accts /\ a_key a = k) ->
  exists a, map_get k (account_map accts) = Some a /\ In a accts /\ a_key a = k.
Proof.
  intros (a & Hin & Hk). unfold account_map.
  pose proof (account_map_fold accts [] k) as H.
  destruct (map_get k (fold_left _ accts [])) as [a0|].
  - destruct H as [[H1 H2]|[H1 _]]; [now exists a0|discriminate].
  - destruct H as [_ H]. now elim (H a Hin).
Qed.
Lemma group_rows_key l row :
  In row (group_by_accountKey l) -> exists t, In t l /\ t_accountKey t = row_id row.
Proof.
  unfold group_by_accountKey. rewrite in_map_iff.
  intros (k & <- & Hk). apply nodup_In, in_map_iff in Hk.
  destruct Hk as (t & <- & Ht). now exists t.
Qed.

(** *** Balanced journals *)

Lemma filter_filter_and {A} (p q : A -> bool) l :
  filter q (filter p l) = filter (fun x => p x && q x) l.
Proof.
  induction l as [|x l IH]; simpl; [reflexivity|].
  destruct (p x); simpl; [|exact IH].
  destruct (q x); now rewrite IH.
Qed.

Lemma filter_none {A} (p : A -> bool) l :
  (forall x, In x l -> p x = false) -> filter p l = [].
Proof.
  induction l as [|x l IH]; simpl; intros H; [reflexivity|].
  rewrite (H x (or_introl eq_refl)). apply IH. intros y Hy. apply H. now right.
Qed.

(** A selection by datetime keeps or drops the entries of a journal
    together. *)
Lemma journal_selected (p : Date -> bool) (s : Store) (j : ObjectId) :
  datetime_mirrored s ->
  class t_journalId Nat.eqb j
        (filter (fun t => negb (t_voided t) && p (t_datetime t)) (transactions s))
    = journal_entries j s
  \/
  class t_journalId Nat.eqb j
        (filter (fun t => negb (t_voided t) && p (t_datetime t)) (transactions s))
    = [].
Proof.
  intros Hm. unfold class, journal_entries. rewrite filter_filter_and.
  destruct (find (fun t => (t_journalId t =? j)%nat) (transactions s)) as [t0|] eqn:E.
  - apply find_some in E. destruct E as (Hin0 & Hj0). apply Nat.eqb_eq in Hj0.
    destruct (p (t_datetime t0)) eqn:Ep; [left|right].
    + apply filter_ext_in. intros t Ht.
      destruct (Nat.eqb_spec (t_journalId t) j) as [Hj|Hj].
      * rewrite (Hm t t0 Ht Hin0) by congruence. rewrite Ep.
        now rewrite andb_true_r, andb_true_r.
      * now rewrite andb_false_r.
    + apply filter_none. intros t Ht.
      destruct (Nat.eqb_spec (t_journalId t) j) as [Hj|Hj].
      * rewrite (Hm t t0 Ht Hin0) by congruence. rewrite Ep.
        now rewrite andb_false_r.
      * now rewrite andb_false_r.
  - right. apply filter_none. intros t Ht.
    rewrite (find_none _ _ E t Ht). now rewrite andb_false_r.
Qed.

(** In a store whose journals are balanced to the cent, the non-voided
    entries selected by datetime have equal total debit and credit, in
    cents. *)
Lemma selected_balanced (p : Date -> bool) (s : Store) :
  journals_balanced_to_the_cent s -> datetime_mirrored s ->
  (cents_sum t_debit
     (filter (fun t => negb (t_voided t) && p (t_datetime t)) (transactions s))
   == cents_sum t_credit
        (filter (fun t => negb (t_voided t) && p (t_datetime t)) (transactions s)))%Q.
Proof.
  intros Hb Hm. unfold cents_sum.
  apply (qsum_classwise t_journalId Nat.eqb Nat.eqb_spec). intros j.
  destruct (journal_selected p s j Hm) as [-> | ->]; [|reflexivity].
  apply Hb.
Qed.

Lemma selected_known (p : TransactionLine -> bool) (s : Store) row :
  accounts_known s ->
  In row (group_by_accountKey (filter p (transactions s))) ->
  exists a, map_get (row_id row) (account_map (accounts s)) = Some a /\
            In a (accounts s) /\ a_key a = row_id row.
Proof.
  intros Hk Hrow. apply group_rows_key in Hrow. destruct Hrow as (t & Ht & <-).
  apply filter_In in Ht. apply account_map_known. apply Hk. tauto.
Qed.

(** The exact sum over the rows of a grouping is the exact sum over the
    entries, when each row holds the exact sum of its class. *)
Lemma group_rows_qsum (f : GroupRow -> Q) (g : TransactionLine -> Q) l :
  (forall k, In k (map t_accountKey l) ->
     (f (mkGroupRow k (sum_of t_debit (entries_of k l)) (sum_of t_credit (entries_of k l)))
      == qsum g (entries_of k l))%Q) ->
  (qsum f (group_by_accountKey l) == qsum g l)%Q.
Proof.
  intros H. unfold group_by_accountKey. rewrite qsum_map.
  rewrite <- (qsum_classes t_accountKey String.eqb String.eqb_spec g
                (nodup string_dec (map t_accountKey l)) l).
  - apply qsum_ext. intros k Hk. apply H. now apply nodup_In in Hk.
  - apply NoDup_nodup.
  - intros x Hx. apply nodup_In. now apply in_map.
Qed.

(** *** getTrialBalance *)

Lemma trial_fold accountMap rows :
  (forall row, In row rows -> exists a, map_get (row_id row) accountMap = Some a) ->
  forall acc,
    grandTotalDebit (fold_left (trial_step accountMap) rows acc)
      = fold_left (fun a r => a + round (row_debit r)) rows (grandTotalDebit acc) /\
    grandTotalCredit (fold_left (trial_step accountMap) rows acc)
      = fold_left (fun a r => a + round (row_credit r)) rows (grandTotalCredit acc).
Proof.
  induction rows as [|row rows IH]; intros Hknown acc; [now split|].
  simpl fold_left.
  destruct (IH (fun r Hr => Hknown r (or_intror Hr)) (trial_step accountMap acc row))
    as (Hd & Hc).
  rewrite Hd, Hc. unfold trial_step.
  destruct (Hknown row (or_introl eq_refl)) as (a & ->). now split.
Qed.

(** C3 (amended). Take a store whose journals are balanced to the cent
    over their non-voided entries, where the entries of a journal carry one
    datetime and every entry is posted to an account of the chart, and a
    range on which the floating-point arithmetic of the report is right to
    the cent.  Then [getTrialBalance] returns, whatever the collation,
    finite totals with [totalDebit === totalCredit]. *)
Theorem getTrialBalance_balanced (localeCompare : string -> string -> comparison)
    (from to : option Date) (s : Store) :
  journals_balanced_to_the_cent s -> datetime_mirrored s -> accounts_known s ->
  trial_arithmetic_to_the_cent from to s ->
  exists res, getTrialBalance localeCompare from to s = (Ok res, s) /\
              is_finite (tb_totalDebit res) = true /\
              is_finite (tb_totalCredit res) = true /\
              (tb_totalDebit res =? tb_totalCredit res) = true.
Proof.
  intros Hb Hm Hk (Hrows & HD & HC).
  eexists.
  split; [cbv [getTrialBalance bind get_store new_Date ret]; reflexivity|].
  cbn [tb_totalDebit tb_totalCredit].
  fold (entries_in from to s).
  set (sel := entries_in from to s) in *.
  destruct (trial_fold (account_map (accounts s)) (group_by_accountKey sel)) with
    (acc := mkTrialAcc [] 0 0) as (Hd & Hcr).
  { intros row Hrow. destruct (selected_known _ s row Hk Hrow) as (a & Ha & _).
    now exists a. }
  rewrite Hd, Hcr. cbn [grandTotalDebit grandTotalCredit].
  fold (sum_of (fun r => round (row_debit r)) (group_by_accountKey sel)).
  fold (sum_of (fun r => round (row_credit r)) (group_by_accountKey sel)).
  split; [apply HD|]. split; [apply HC|].
  destruct HD as (HD1 & HD2 & HD3). destruct HC as (HC1 & HC2 & HC3).
  apply (reads_eqb _ _ (cents_sum t_debit sel)).
  - split; [exact HD1|]. split; [exact HD2|]. rewrite HD3. unfold cents_sum.
    apply (group_rows_qsum (fun row => cents (round (row_debit row)))
                           (fun t => cents (t_debit t))).
    intros k Hin. cbn [row_debit].
    destruct (Hrows k Hin) as ((_ & _ & H1) & (_ & _ & H2) & _). now rewrite H2, H1.
  - split; [exact HC1|]. split; [exact HC2|]. rewrite HC3. unfold cents_sum.
    rewrite (group_rows_qsum (fun row => cents (round (row_credit row)))
                             (fun t => cents (t_credit t))).
    + symmetry. apply (selected_balanced (in_range from to) s Hb Hm).
    + intros k Hin. cbn [row_credit].
      destruct (Hrows k Hin) as (_ & _ & (_ & _ & H1) & (_ & _ & H2)). now rewrite H2, H1.
Qed.

(** *** getBalanceSheet *)

Lemma group_rows_shape l row :
  In row (group_by_accountKey l) ->
  exists k, In k (map t_accountKey l) /\
            row = mkGroupRow k (sum_of t_debit (entries_of k l))
                             (sum_of t_credit (entries_of k l)).
Proof.
  unfold group_by_accountKey. rewrite in_map_iff.
  intros (k & <- & Hk). apply nodup_In in Hk. now exists k.
Qed.

(** The four totals of the loop of [getBalanceSheet]: each is the running
    sum of the net balances of the rows of its group, the net income taking
    the expense rows negatively. *)
Lemma sheet_fold s rows : forall acc,
  totalAssets (fold_left (sheet_step (account_map (accounts s))) rows acc)
    = fold_left (fun a r => a + row_net s r) (rows_in g_asset s rows) (totalAssets acc) /\
  totalLiab (fold_left (sheet_step (account_map (accounts s))) rows acc)
    = fold_left (fun a r => a + row_net s r) (rows_in g_liability s rows) (totalLiab acc) /\
  totalEquity (fold_left (sheet_step (account_map (accounts s))) rows acc)
    = fold_left (fun a r => a + row_net s r) (rows_in g_equity s rows) (totalEquity acc) /\
  netIncome (fold_left (sheet_step (account_map (accounts s))) rows acc)
    = fold_left (fun (a : number) (p : bool * number) =>
                   if fst p then a - snd p else a + snd p)
                (income_terms s rows) (netIncome acc).
Proof.
  induction rows as [|row rows IH]; intros acc; [now repeat split|].
  simpl fold_left at 1 3 5 7.
  destruct (IH (sheet_step (account_map (accounts s)) acc row)) as (H1 & H2 & H3 & H4).
  rewrite H1, H2, H3, H4. clear IH H1 H2 H3 H4.
  unfold rows_in, income_terms. cbn [filter flat_map].
  unfold sheet_step.
  change (map_get (row_id row) (account_map (accounts s))) with (row_account s row).
  assert (Hnet : forall a, row_account s row = Some a ->
            getNetBalance (row_debit row) (row_credit row) (a_type a) (a_parentGroup a)
            = row_net s row).
  { intros a Ha. unfold row_net. now rewrite Ha. }
  destruct (row_account s row) as [a|]; [|now repeat split].
  rewrite (Hnet a eq_refl). clear Hnet.
  destruct (a_parentGroup a);
    cbn [fold_left filter flat_map app AccountParentGroup_eqb fst snd
         totalAssets totalLiab totalEquity netIncome];
    now repeat split.
Qed.

(** Assets less liabilities, equity and net income is, in cents, the sum
    over the rows of debit less credit, when the net balance of each row is
    that difference taken from the normal side of its group. *)
Lemma sheet_imbalance s (x : GroupRow -> Q) rows :
  (forall row, In row rows ->
     exists a, row_account s row = Some a /\
               (cents (row_net s row)
                == if debit_side (a_parentGroup a) then x row else - x row)%Q) ->
  (cents_sum (row_net s) (rows_in g_asset s rows)
   - cents_sum (row_net s) (rows_in g_liability s rows)
   - cents_sum (row_net s) (rows_in g_equity s rows)
   - cents_accumulate (income_terms s rows)
   == qsum x rows)%Q.
Proof.
  induction rows as [|row rows IH]; intros H.
  - unfold cents_sum, cents_accumulate; simpl. ring.
  - specialize (IH (fun r Hr => H r (or_intror Hr))).
    destruct (H row (or_introl eq_refl)) as (a & Ha & Hnet).
    rewrite qsum_cons, <- IH.
    unfold rows_in, income_terms, cents_sum, cents_accumulate.
    cbn [filter flat_map]. rewrite !Ha.
    destruct (a_parentGroup a); cbn [AccountParentGroup_eqb debit_side app] in *;
      rewrite ?qsum_cons; cbn [fst snd]; rewrite ?Hnet; ring.
Qed.

(** C2 (amended). Take a store whose journals are balanced to the cent over
    their non-voided entries, where the entries of a journal carry one
    datetime, every entry is posted to an account of the chart and the chart
    has no contra account in the liability group, and a date [asOf] on which
    the floating-point arithmetic of the report is right to the cent.  Then
    [getBalanceSheet] returns finite totals that satisfy, in cents, assets =
    liabilities + equity, the equity total including net income (income
    less expense); and [assets === round(liabilities + equity)] when that
    last addition is right to the cent too. *)
Theorem getBalanceSheet_balanced (asOf : Date) (s : Store) :
  journals_balanced_to_the_cent s -> datetime_mirrored s -> accounts_known s ->
  no_contra_liability s -> sheet_arithmetic_to_the_cent asOf s ->
  exists res, getBalanceSheet asOf s = (Ok res, s) /\
              is_finite (bs_assets res) = true /\
              is_finite (bs_liabilities res) = true /\
              is_finite (bs_equity res) = true /\
              (cents (bs_assets res)
               == cents (bs_liabilities res) + cents (bs_equity res))%Q /\
              (reads (bs_liabilities res + bs_equity res)
                     (cents (bs_liabilities res) + cents (bs_equity res)) ->
               (bs_assets res =? round (bs_liabilities res + bs_equity res)) = true).
Proof.
  intros Hb Hm Hk Hnc
    (Hrows & HA & HL & HE & HN & HEN & (_ & _ & HsA) & (_ & _ & HsL) & (_ & _ & HsE)).
  eexists.
  split; [cbv [getBalanceSheet bind get_store ret]; reflexivity|].
  cbn [bs_assets bs_liabilities bs_equity].
  change (filter (fun t => negb (t_voided t) && (t_datetime t <=? asOf)%Z) (transactions s))
    with (entries_in None (Some asOf) s).
  set (sel := entries_in None (Some asOf) s) in *.
  set (rows := group_by_accountKey sel) in *.
  destruct (sheet_fold s rows (mkSheetAcc [] [] [] 0 0 0 0)) as (H1 & H2 & H3 & H4).
  rewrite H1, H2, H3, H4. cbn [totalAssets totalLiab totalEquity netIncome].
  fold (sum_of (row_net s) (rows_in g_asset s rows)).
  fold (sum_of (row_net s) (rows_in g_liability s rows)).
  fold (sum_of (row_net s) (rows_in g_equity s rows)).
  fold (accumulate (income_terms s rows)).
  unfold adds_to_the_cent, accumulates_to_the_cent in HA, HL, HE, HN.
  destruct HA as (HA1 & HA2 & HA3). destruct HL as (HL1 & HL2 & HL3).
  destruct HE as (HE1 & HE2 & HE3). destruct HN as (HN1 & HN2 & HN3).
  destruct HEN as (HEN1 & HEN2 & HEN3).
  set (totalAssets := sum_of (row_net s) (rows_in g_asset s rows)) in *.
  set (totalLiab := sum_of (row_net s) (rows_in g_liability s rows)) in *.
  set (totalEquity := sum_of (row_net s) (rows_in g_equity s rows)) in *.
  set (netIncome := accumulate (income_terms s rows)) in *.
  split; [exact HA2|]. split; [exact HL2|]. split; [exact HEN2|].
  assert (Hzero : (qsum (fun row => cents (row_debit row) - cents (row_credit row)) rows
                   == 0)%Q).
  { unfold rows.
    rewrite (group_rows_qsum _ (fun t => cents (t_debit t) - cents (t_credit t))%Q).
    - rewrite qsum_minus.
      pose proof (selected_balanced (in_range None (Some asOf)) s Hb Hm) as Hbal.
      fold (entries_in None (Some asOf) s) in Hbal. fold sel in Hbal.
      unfold cents_sum in Hbal. rewrite Hbal. ring.
    - intros k Hin. cbn [row_debit row_credit]. rewrite qsum_minus.
      destruct (Hrows k Hin) as ((_ & _ & Hd) & (_ & _ & Hc) & _).
      fold (cents_sum t_debit (entries_of k sel)).
      fold (cents_sum t_credit (entries_of k sel)).
      now rewrite Hd, Hc. }
  assert (Hall : (cents_sum (row_net s) (rows_in g_asset s rows)
                  - cents_sum (row_net s) (rows_in g_liability s rows)
                  - cents_sum (row_net s) (rows_in g_equity s rows)
                  - cents_accumulate (income_terms s rows) == 0)%Q).
  { rewrite <- Hzero. apply sheet_imbalance. intros row Hrow.
    destruct (selected_known _ s row Hk Hrow) as (a & Ha & Hin & _).
    exists a. split; [exact Ha|].
    destruct (group_rows_shape sel row Hrow) as (k & Hkin & ->).
    destruct (Hrows k Hkin)
      as (_ & _ & (_ & _ & Hdc) & (_ & _ & Hsdc) & (_ & _ & Hcd) & (_ & _ & Hscd)).
    unfold row_net, row_account. cbn [row_id row_debit row_credit] in *.
    rewrite Ha. unfold getNetBalance.
    specialize (Hnc a Hin).
    destruct (a_parentGroup a);
      cbn [AccountParentGroup_eqb orb debit_side]; rewrite ?andb_false_r.
    + rewrite Hsdc, Hdc. ring.
    + destruct (a_type a); cbn [AccountType_eqb andb];
        try (rewrite Hscd, Hcd; ring).
      exfalso. apply Hnc. split; reflexivity.
    + rewrite Hscd, Hcd. ring.
    + rewrite Hscd, Hcd. ring.
    + rewrite Hsdc, Hdc. ring. }
  assert (Hcore : (cents totalAssets
                   == cents (round totalLiab) + cents (round (totalEquity + netIncome)))%Q).
  { rewrite HsL, HsE, HEN3, HA3, HL3, HE3, HN3. clear - Hall. lra. }
  split; [now rewrite HsA|].
  intros Hsum. apply (reads_eqb _ _ (cents totalAssets)).
  - split; [exact HA1|]. split; [exact HA2|reflexivity].
  - destruct Hsum as (Hs1 & Hs2 & Hs3).
    split; [exact Hs1|]. split; [exact Hs2|]. now rewrite Hs3, Hcore.
Qed.

(** *** Concrete ledgers *)

Ltac solve_mirrored :=
  intros t1 t2 H1 H2 Hj; simpl in H1, H2;
  repeat (destruct H1 as [<-|H1]; [|]);
  try contradiction;
  repeat (destruct H2 as [<-|H2]; [|]);
  try contradiction; solve [reflexivity | discriminate Hj].

Ltac solve_known :=
  intros t Ht; simpl in Ht;
  repeat (destruct Ht as [<-|Ht];
          [match goal with
           | |- exists a, In a ?l /\ a_key a = ?k =>
               let r := eval vm_compute in (findAccount k l) in
               match r with
               | Some ?a => exists a; split; [simpl; tauto|reflexivity]
               end
           end|]);
  contradiction.

Ltac solve_no_contra :=
  intros a Ha (Ht & _); simpl in Ha;
  repeat (destruct Ha as [<-|Ha]; [discriminate Ht|]); contradiction.

(** Closed statements about the cents of numbers. *)
Ltac solve_cents := vm_compute; repeat split; reflexivity.

Lemma subcent_posted :
  postJournal subcent_request chart_store
  = (Ok (mkPostJournalResult subcent_journal subcent_entries), subcent_store).
Proof. vm_compute. reflexivity. Qed.

Lemma subcent_store_consistent :
  journals_balanced subcent_store /\ datetime_mirrored subcent_store /\
  accounts_known subcent_store /\ no_contra_liability subcent_store.
Proof.
  split; [|split; [|split]].
  - intros j. do 4 (destruct j as [|j]; [vm_compute; reflexivity|]).
    vm_compute; reflexivity.
  - solve_mirrored.
  - solve_known.
  - solve_no_contra.
Qed.

(** C3, as stated, fails: the journal of [subcent_store], posted by
    [postJournal], is balanced, yet the trial balance rounds each account
    apart and reports a total debit of 0 against a total credit of 0.01. *)
Lemma getTrialBalance_subcent_unbalanced :
  postJournal subcent_request chart_store
  = (Ok (mkPostJournalResult subcent_journal subcent_entries), subcent_store) /\
  journals_balanced subcent_store /\ datetime_mirrored subcent_store /\
  accounts_known subcent_store /\
  exists res, getTrialBalance String.compare None None subcent_store
              = (Ok res, subcent_store) /\
              tb_totalDebit res = 0 /\ tb_totalCredit res = 0.01 /\
              (tb_totalDebit res =? tb_totalCredit res) = false.
Proof.
  destruct subcent_store_consistent as (H1 & H2 & H3 & _).
  split; [exact subcent_posted|].
  repeat (split; [assumption|]).
  eexists. split; [vm_compute; reflexivity|].
  repeat split.
Qed.

(** C2, as stated, fails on the same ledger: assets 0, liabilities 0.01,
    equity 0. *)
Lemma getBalanceSheet_subcent_unbalanced :
  postJournal subcent_request chart_store
  = (Ok (mkPostJournalResult subcent_journal subcent_entries), subcent_store) /\
  journals_balanced subcent_store /\ datetime_mirrored subcent_store /\
  accounts_known subcent_store /\ no_contra_liability subcent_store /\
  exists res, getBalanceSheet 2000%Z subcent_store = (Ok res, subcent_store) /\
              bs_assets res = 0 /\ bs_liabilities res = 0.01 /\ bs_equity res = 0 /\
              (bs_assets res =? bs_liabilities res + bs_equity res) = false.
Proof.
  destruct subcent_store_consistent as (H1 & H2 & H3 & H4).
  split; [exact subcent_posted|].
  repeat (split; [assumption|]).
  eexists. split; [vm_compute; reflexivity|].
  repeat split.
Qed.

(** Whole cents do not save the totals from the rounding of the floating
    point: the journal of [large_store] is accepted by [postJournal], and
    the trial balance and the balance sheet report 39672422170639.04 against
    39672422170639.03. *)
Lemma reports_large_unbalanced :
  (exists res, postJournal large_request chart_store = (Ok res, large_store)) /\
  journals_balanced large_store /\
  (exists res, getTrialBalance String.compare None None large_store
               = (Ok res, large_store) /\
               tb_totalDebit res = 39672422170639.04 /\
               tb_totalCredit res = 39672422170639.03 /\
               (tb_totalDebit res =? tb_totalCredit res) = false) /\
  (exists res, getBalanceSheet 2000%Z large_store = (Ok res, large_store) /\
               bs_assets res = 39672422170639.04 /\
               bs_liabilities res = 39672422170639.03 /\ bs_equity res = 0).
Proof.
  split; [eexists; vm_compute; reflexivity|].
  split.
  { intros j. do 4 (destruct j as [|j]; [vm_compute; reflexivity|]).
    vm_compute; reflexivity. }
  split; eexists; (split; [vm_compute; reflexivity|]); repeat split.
Qed.

(** With whole amounts and a balanced journal, a contra account of the
    liability group still breaks the balance sheet: its debit balance is
    added to the liabilities. *)
Lemma getBalanceSheet_contra_liability :
  postJournal contra_request (mkStore [CASH; DISCOUNT] [] [] 2%nat 0%Z)
    = (Ok (mkPostJournalResult
             (mkJournal 2 "discount" 1000%Z None None false None 0%Z 0%Z)
             (transactions contra_store)), contra_store) /\
  journals_balanced_to_the_cent contra_store /\
  datetime_mirrored contra_store /\ accounts_known contra_store /\
  exists res, getBalanceSheet 2000%Z contra_store = (Ok res, contra_store) /\
              bs_assets res = -100 /\ bs_liabilities res = 100 /\ bs_equity res = 0.
Proof.
  split; [vm_compute; reflexivity|].
  split.
  { intros j. do 3 (destruct j as [|j]; [vm_compute; reflexivity|]).
    vm_compute; reflexivity. }
  split; [solve_mirrored|].
  split; [solve_known|].
  eexists. split; [vm_compute; reflexivity|].
  repeat split.
Qed.

Lemma shop_store_posted :
  exists r1 s1 r2 s2 r3,
    postJournal sale_request shop_chart = (Ok r1, s1) /\
    postJournal rent_request s1 = (Ok r2, s2) /\
    postJournal funding_request s2 = (Ok r3, shop_store).
Proof.
  do 5 eexists. split; [vm_compute; reflexivity|].
  split; vm_compute; reflexivity.
Qed.

Lemma shop_store_consistent :
  journals_balanced_to_the_cent shop_store /\
  datetime_mirrored shop_store /\ accounts_known shop_store /\
  no_contra_liability shop_store.
Proof.
  split.
  { intros j. do 17 (destruct j as [|j]; [solve_cents|]). solve_cents. }
  split; [solve_mirrored|].
  split; [solve_known|].
  solve_no_contra.
Defined.

Lemma shop_store_trial_to_the_cent : trial_arithmetic_to_the_cent None None shop_store.
Proof.
  split.
  - intros k Hk. simpl in Hk.
    repeat (destruct Hk as [<-|Hk]; [solve_cents|]). contradiction.
  - solve_cents.
Defined.

Lemma shop_store_sheet_to_the_cent : sheet_arithmetic_to_the_cent 5000%Z shop_store.
Proof.
  split.
  - intros k Hk. simpl in Hk.
    repeat (destruct Hk as [<-|Hk]; [solve_cents|]). contradiction.
  - solve_cents.
Defined.

Lemma getTrialBalance_balanced_witness :
  exists res, getTrialBalance String.compare None None shop_store = (Ok res, shop_store) /\
              (tb_totalDebit res =? tb_totalCredit res) = true.
Proof.
  destruct shop_store_consistent as (H1 & H2 & H3 & _).
  destruct (getTrialBalance_balanced String.compare None None shop_store
              H1 H2 H3 shop_store_trial_to_the_cent) as (res & Hres & _ & _ & Heq).
  exists res. split; [exact Hres|exact Heq].
Defined.

Lemma getBalanceSheet_balanced_witness :
  exists res, getBalanceSheet 5000%Z shop_store = (Ok res, shop_store) /\
              (cents (bs_assets res)
               == cents (bs_liabilities res) + cents (bs_equity res))%Q.
Proof.
  destruct shop_store_consistent as (H1 & H2 & H3 & H4).
  destruct (getBalanceSheet_balanced 5000%Z shop_store H1 H2 H3 H4
              shop_store_sheet_to_the_cent) as (res & Hres & _ & _ & _ & Heq & _).
  exists res. split; [exact Hres|exact Heq].
Defined.

(** The reports of the shop: both totals of the trial balance are 1001.10;
    assets of 999.70 against liabilities of 500.05 and equity of 499.65,
    the capital of 500.05 less the loss of 0.40. *)
Lemma shop_reports :
  (exists res, getTrialBalance String.compare None None shop_store = (Ok res, shop_store) /\
               tb_totalDebit res = 1001.1 /\ tb_totalCredit res = 1001.1) /\
  (exists res, getBalanceSheet 5000%Z shop_store = (Ok res, shop_store) /\
               bs_assets res = 999.7 /\ bs_liabilities res = 500.05 /\
               bs_equity res = 499.65 /\
               (bs_assets res =? round (bs_liabilities res + bs_equity res)) = true).
Proof.
  split; eexists; (split; [vm_compute; reflexivity|]); repeat split.
Qed.

Lemma voidJournal_spec_witness :
  (exists s', voidJournal 3 "mistake" cents_store = (Ok true, s')) /\
  voidJournal 5 "mistake" cents_store = (Throw ValidationError, cents_store).
Proof.
  split.
  - destruct (proj1 (voidJournal_spec 3 "mistake" cents_store)) as (s' & _ & _ & _ & H & _).
    + eexists. split; [left; reflexivity|]. split; reflexivity.
    + now exists s'.
  - apply (proj2 (voidJournal_spec 5 "mistake" cents_store)).
    intros (j & Hj & Hid & _). simpl in Hj.
    destruct Hj as [<-|[<-|[]]]; discriminate Hid.
Defined.

(** [cents_store] is the store reached by creating the three accounts and
    posting the two journals. *)
Lemma cents_store_reachable : reachable cents_store.
Proof.
  pose proof (reach_empty 0%Z) as H0.
  apply (reach_createAccount _ (account_input "CASH" "1000" "Cash" t_asset g_asset)) in H0.
  apply (reach_createAccount _ (account_input "BANK" "1010" "Bank" t_asset g_asset)) in H0.
  apply (reach_createAccount _ (account_input "LOAN" "2000" "Loan" t_liability g_liability))
    in H0.
  apply (reach_postJournal _ loan_request) in H0.
  apply (reach_postJournal _ deposit_request) in H0.
  exact H0.
Defined.

Lemma getAccountLedger_spec_witness :
  reachable cents_store /\
  findAccount "CASH" (accounts cents_store) = Some CASH /\
  exists res, getAccountLedger cash_ledger_query cents_store = (Ok res, cents_store) /\
              List.length (items res) = 1%nat.
Proof.
  assert (H1 : findAccount "CASH" (accounts cents_store) = Some CASH) by reflexivity.
  split; [exact cents_store_reachable|]. split; [exact H1|].
  destruct (getAccountLedger_spec cash_ledger_query cents_store CASH
              cents_store_reachable H1)
    as (before & matching & sorted & opening & res & Hres & _).
  exists res. split; [exact Hres|].
  vm_compute in Hres. injection Hres as <-. reflexivity.
Defined.

(** *** validateParent *)

Lemma set_has_add k k' l :
  set_has k (set_add k' l) = true <-> k = k' \/ set_has k l = true.
Proof.
  unfold set_add, set_has.
  destruct (existsb (String.eqb k') l) eqn:E.
  - split; [tauto|]. intros [->|H]; [exact E|exact H].
  - rewrite existsb_app, orb_true_iff. simpl. rewrite orb_false_r, String.eqb_eq. tauto.
Qed.

Lemma ancestor_None accts start n m :
  ancestor accts start n = None -> ancestor accts start (n + m) = None.
Proof.
  intros H. induction m as [|m IH].
  - now rewrite Nat.add_0_r.
  - rewrite Nat.add_succ_r. simpl. now rewrite IH.
Qed.

Lemma ancestor_shift accts start i d m :
  ancestor accts start d = ancestor accts start i ->
  ancestor accts start (d + m) = ancestor accts start (i + m).
Proof.
  intros H. induction m as [|m IH].
  - now rewrite !Nat.add_0_r.
  - rewrite !Nat.add_succ_r. simpl. now rewrite IH.
Qed.

Section Walk.
Variables (accts : list Account) (A P : string) (parent : Account).
Hypothesis P_nonempty : P <> "".
Hypothesis A_not_P : A <> P.
Hypothesis P_found : findAccount P accts = Some parent.

Let ch := ancestor accts (a_parentAccountKey parent).

Lemma ancestor_restart d m :
  ch d = Some P -> ch (S d + m) = ch m.
Proof.
  intros H. induction m as [|m IH].
  - rewrite Nat.add_0_r. unfold ch in *. simpl. rewrite H. simpl.
    destruct (String.eqb_spec P ""); [contradiction|]. now rewrite P_found.
  - rewrite Nat.add_succ_r. unfold ch in *. simpl. simpl in IH. now rewrite IH.
Qed.

(** Once a key repeats, the chain only revisits keys it has seen: the
    candidate is not reached later if it was not reached before. *)
Lemma repeat_never_reaches k :
  (forall i, (i <= k)%nat -> ch i <> Some A) ->
  (ch k = Some P \/ exists i, (i < k)%nat /\ ch i = ch k) ->
  forall n, ch n <> Some A.
Proof.
  intros Hbefore Hrep n. induction n as [n IH] using lt_wf_ind.
  destruct (Nat.le_gt_cases n k) as [Hle|Hgt]; [now apply Hbefore|].
  destruct Hrep as [HP|(i & Hi & Heq)].
  - replace n with (S k + (n - S k))%nat by lia.
    rewrite (ancestor_restart k _ HP). apply IH. lia.
  - replace n with (k + (n - k))%nat by lia.
    unfold ch. rewrite (ancestor_shift accts _ i k (n - k)) by (symmetry; exact Heq).
    apply IH. lia.
Qed.

Lemma ch_step d ck node :
  ch d = Some ck -> ck <> "" -> findAccount ck accts = Some node ->
  ch (S d) = a_parentAccountKey node.
Proof.
  intros H Hne Hf. unfold ch in *. simpl. rewrite H. simpl.
  destruct (String.eqb_spec ck ""); [contradiction|]. now rewrite Hf.
Qed.

Lemma ch_dead d n :
  (d < n)%nat ->
  ch d = None \/ ch d = Some "" \/
    (exists ck, ch d = Some ck /\ findAccount ck accts = None) ->
  ch n = None.
Proof.
  intros Hlt H. replace n with (S d + (n - S d))%nat by lia.
  apply ancestor_None. simpl. fold (ch d).
  destruct H as [->|[->|(ck & -> & Hf)]]; try reflexivity.
  simpl. destruct (String.eqb ck ""); [reflexivity|]. now rewrite Hf.
Qed.

(** The loop never runs out of fuel. *)
Lemma walk_fuel fuel : forall d visited,
  (d <= MAX_DEPTH)%nat -> (MAX_DEPTH < fuel + d)%nat ->
  validateParent_walk fuel accts A (ch d) visited d <> OutOfFuel.
Proof.
  induction fuel as [|fuel IH]; intros d visited Hd Hf; [lia|].
  simpl. destruct (ch d) as [ck|] eqn:E; [|discriminate].
  destruct (String.eqb_spec ck "") as [|Hne]; [discriminate|].
  destruct (String.eqb ck A); [discriminate|].
  destruct (set_has ck visited); [discriminate|].
  destruct (findAccount ck accts) as [node|] eqn:Ef; [|discriminate].
  destruct (Nat.ltb_spec MAX_DEPTH (S d)) as [|Hle]; [discriminate|].
  rewrite <- (ch_step d ck node E Hne Ef). apply IH; lia.
Qed.

(** The loop reports a cycle only when the candidate is among the first
    [MAX_DEPTH + 1] keys of the chain. *)
Lemma walk_sound fuel : forall d visited,
  (d <= MAX_DEPTH)%nat ->
  validateParent_walk fuel accts A (ch d) visited d = Circular ->
  exists n, (n <= MAX_DEPTH)%nat /\ ch n = Some A.
Proof.
  induction fuel as [|fuel IH]; intros d visited Hd; [discriminate|].
  simpl. destruct (ch d) as [ck|] eqn:E; [|discriminate].
  destruct (String.eqb_spec ck "") as [|Hne]; [discriminate|].
  destruct (String.eqb_spec ck A) as [->|HA]; [intros _; now exists d|].
  destruct (set_has ck visited); [discriminate|].
  destruct (findAccount ck accts) as [node|] eqn:Ef; [|discriminate].
  destruct (Nat.ltb_spec MAX_DEPTH (S d)) as [|Hle]; [discriminate|].
  rewrite <- (ch_step d ck node E Hne Ef). apply IH; lia.
Qed.

Hypothesis A_nonempty : A <> "".

(** The loop reports the cycle when the candidate is first reached after
    [n] hops, [n] at most [MAX_DEPTH]. *)
Lemma walk_complete n :
  (n <= MAX_DEPTH)%nat -> ch n = Some A -> (forall i, (i < n)%nat -> ch i <> Some A) ->
  forall fuel d visited,
    (d <= n)%nat -> (MAX_DEPTH < fuel + d)%nat ->
    (forall v, set_has v visited = true ->
               v = P \/ exists i, (i < d)%nat /\ ch i = Some v) ->
    validateParent_walk fuel accts A (ch d) visited d = Circular.
Proof.
  intros Hn Hreach Hmin.
  induction fuel as [|fuel IH]; intros d visited Hd Hf Hvis; [lia|].
  simpl. destruct (Nat.eq_dec d n) as [->|Hdn].
  { rewrite Hreach. destruct (String.eqb_spec A ""); [contradiction|].
    now rewrite String.eqb_refl. }
  assert (Hlt : (d < n)%nat) by lia.
  destruct (ch d) as [ck|] eqn:E.
  2:{ rewrite (ch_dead d n Hlt) in Hreach; [discriminate|now left]. }
  destruct (String.eqb_spec ck "") as [->|Hne].
  { rewrite (ch_dead d n Hlt) in Hreach; [discriminate|right; now left]. }
  destruct (String.eqb_spec ck A) as [->|HA]; [reflexivity|].
  destruct (set_has ck visited) eqn:Ev.
  { exfalso. apply (repeat_never_reaches d) with (n := n); [| |exact Hreach].
    - intros i Hi. destruct (Nat.eq_dec i d) as [->|]; [congruence|apply Hmin; lia].
    - destruct (Hvis ck Ev) as [->|(i & Hi & Hci)]; [now left|right].
      exists i. split; [exact Hi|congruence]. }
  destruct (findAccount ck accts) as [node|] eqn:Ef.
  2:{ rewrite (ch_dead d n Hlt) in Hreach; [discriminate|].
      right; right. now exists ck. }
  destruct (Nat.ltb_spec MAX_DEPTH (S d)) as [|Hle]; [lia|].
  rewrite <- (ch_step d ck node E Hne Ef). apply IH; [lia|lia|].
  intros v Hv. apply set_has_add in Hv. destruct Hv as [->|Hv].
  - right. exists d. split; [lia|exact E].
  - destruct (Hvis v Hv) as [->|(i & Hi & Hci)]; [now left|right].
    exists i. split; [lia|exact Hci].
Qed.

Lemma opt_eqb_eq o k : opt_eqb o k = true <-> o = Some k.
Proof.
  destruct o as [k'|]; simpl; [|split; discriminate].
  rewrite String.eqb_eq. split; [now intros ->|now intros [= ->]].
Qed.

Lemma first_reach n :
  ch n = Some A ->
  exists m, (m <= n)%nat /\ ch m = Some A /\ forall i, (i < m)%nat -> ch i <> Some A.
Proof.
  induction n as [n IH] using lt_wf_ind. intros Hn.
  destruct (existsb (fun i => opt_eqb (ch i) A) (seq 0 n)) eqn:E.
  - apply existsb_exists in E. destruct E as (i & Hseq & Hi).
    apply opt_eqb_eq in Hi. apply in_seq in Hseq.
    destruct (IH i ltac:(lia) Hi) as (m & Hm & Hcm & Hmin).
    exists m. split; [lia|]. now split.
  - exists n. split; [lia|]. split; [exact Hn|].
    intros i Hi Hci. apply not_true_iff_false in E. apply E.
    apply existsb_exists. exists i. split; [apply in_seq; lia|].
    now apply opt_eqb_eq.
Qed.

(** The walk of [validateParent] reports a cycle when the candidate is
    among the first [MAX_DEPTH + 1] keys of the chain, and stops without a
    report otherwise. *)
Lemma walk_circular :
  (exists n, (n <= MAX_DEPTH)%nat /\ ch n = Some A) ->
  validateParent_walk (S (S MAX_DEPTH)) accts A (a_parentAccountKey parent) [P] 0
  = Circular.
Proof.
  intros (n & Hn & Hcn).
  destruct (first_reach n Hcn) as (m & Hm & Hcm & Hmin).
  change (a_parentAccountKey parent) with (ch 0).
  apply (walk_complete m); try assumption; try lia.
  intros v Hv. left. simpl in Hv. rewrite orb_false_r in Hv.
  now apply String.eqb_eq in Hv.
Qed.

Lemma walk_stopped :
  (forall n, (n <= MAX_DEPTH)%nat -> ch n <> Some A) ->
  validateParent_walk (S (S MAX_DEPTH)) accts A (a_parentAccountKey parent) [P] 0
  = Stopped.
Proof.
  intros Hnot. change (a_parentAccountKey parent) with (ch 0).
  pose proof (walk_fuel (S (S MAX_DEPTH)) 0 [P]) as Hfuel.
  pose proof (walk_sound (S (S MAX_DEPTH)) 0 [P]) as Hsound.
  destruct (validateParent_walk _ _ _ _ _ _).
  - exfalso. destruct Hsound as (n & Hn & Hcn); [lia|reflexivity|].
    now apply (Hnot n).
  - reflexivity.
  - exfalso. apply Hfuel; [lia|lia|reflexivity].
Qed.
End Walk.

Lemma find_app_first {A} (p : A -> bool) l1 x l2 :
  (forall y, In y l1 -> p y = false) -> p x = true ->
  find p (l1 ++ x :: l2) = Some x.
Proof.
  induction l1 as [|y l1 IH]; simpl; intros H Hx; [now rewrite Hx|].
  rewrite (H y (or_introl eq_refl)). apply IH; [|exact Hx].
  intros z Hz. apply H. now right.
Qed.

Arguments validateParent : simpl never.
Arguments validateParent_walk : simpl never.

Lemma validateParent_self (A : string) (s : Store) :
  A <> "" -> validateParent A (Some A) s = (Throw ValidationError, s).
Proof.
  intros HA. unfold validateParent.
  destruct (String.eqb_spec A ""); [contradiction|]. now rewrite String.eqb_refl.
Qed.

Lemma validateParent_walks (A P : string) (parent : Account) (s : Store) :
  P <> "" -> A <> P -> findAccount P (accounts s) = Some parent ->
  validateParent A (Some P) s =
  match validateParent_walk (S (S MAX_DEPTH)) (accounts s) A
          (a_parentAccountKey parent) [P] 0 with
  | Circular => (Throw ValidationError, s)
  | Stopped => (Ok tt, s)
  | OutOfFuel => (Throw PlainError, s)
  end.
Proof.
  intros HP HAP Hf. unfold validateParent.
  destruct (String.eqb_spec P ""); [contradiction|].
  destruct (String.eqb_spec A P); [contradiction|].
  unfold bind, get_store. rewrite Hf.
  now destruct (validateParent_walk _ _ _ _ _ _).
Qed.

(** C7. When [updateAccount] reassigns the parent of account [A] to [P]:
    it is refused with [ValidationError] if [A] is [P], or if [A] is among
    the first [MAX_DEPTH + 1] keys met walking up from the parent of [P];
    the validation passes without error if a key of the chain repeats
    before [A] is reached, or if [A] is not met within the first
    [MAX_DEPTH + 1] keys (the walk stops after more than [MAX_DEPTH] hops);
    and when [A] exists and is not an ancestor of [P], the update succeeds
    and [A] gets the parent [P]. *)
Theorem updateAccount_reparent (data : UpdateAccountInput) (A P : string) (s : Store) :
  ua_key data = Some A -> A <> "" ->
  ua_parentAccountKey data = Some (Some P) -> P <> "" ->
  (A = P -> updateAccount data s = (Throw ValidationError, s)) /\
  (forall parent, findAccount P (accounts s) = Some parent -> A <> P ->
     let ch := ancestor (accounts s) (a_parentAccountKey parent) in
     ((exists n, (n <= MAX_DEPTH)%nat /\ ch n = Some A) ->
      validateParent A (Some P) s = (Throw ValidationError, s) /\
      updateAccount data s = (Throw ValidationError, s)) /\
     (forall k, (forall i, (i <= k)%nat -> ch i <> Some A) ->
                (ch k = Some P \/ exists i, (i < k)%nat /\ ch i = ch k) ->
                validateParent A (Some P) s = (Ok tt, s)) /\
     ((forall n, (n <= MAX_DEPTH)%nat -> ch n <> Some A) ->
      validateParent A (Some P) s = (Ok tt, s)) /\
     ((forall n, ch n <> Some A) ->
      forall a, findAccount A (accounts s) = Some a ->
      exists a' s', updateAccount data s = (Ok a', s') /\
                    a_key a' = A /\ a_parentAccountKey a' = Some P /\
                    findAccount A (accounts s') = Some a' /\
                    journals s' = journals s /\ transactions s' = transactions s)).
Proof.
  intros Hkey HA Hpk HP.
  assert (Hupd : forall r, validateParent A (Some P) s = (Throw r, s) ->
                           updateAccount data s = (Throw r, s)).
  { intros r Hv. unfold updateAccount. rewrite Hkey, Hpk.
    destruct (String.eqb_spec A ""); [contradiction|].
    unfold bind at 1. simpl. unfold bind at 1, new_Date. unfold bind at 1.
    now rewrite Hv. }
  split.
  { intros <-. apply Hupd. now apply validateParent_self. }
  intros parent Hf HAP ch.
  assert (Hstop : (forall n, (n <= MAX_DEPTH)%nat -> ch n <> Some A) ->
                  validateParent A (Some P) s = (Ok tt, s)).
  { intros Hnot. rewrite (validateParent_walks A P parent s HP HAP Hf).
    now rewrite (walk_stopped (accounts s) A P parent Hnot). }
  split; [|split; [|split]].
  - intros Hreach.
    assert (Hv : validateParent A (Some P) s = (Throw ValidationError, s)).
    { rewrite (validateParent_walks A P parent s HP HAP Hf).
      now rewrite (walk_circular (accounts s) A P parent HP Hf HA Hreach). }
    split; [exact Hv|now apply Hupd].
  - intros k Hbefore Hrep. apply Hstop. intros n _.
    now apply (repeat_never_reaches (accounts s) A P parent HP Hf k).
  - exact Hstop.
  - intros Hnever a Ha.
    destruct (update_first_some (fun x => String.eqb (a_key x) A)
                (apply_update data (clock s)) (accounts s))
      as (l1 & x & l2 & Hsplit & Hx & Hl1 & Hu).
    { exists a. apply find_some in Ha. exact Ha. }
    exists (apply_update data (clock s) x). eexists.
    unfold updateAccount. rewrite Hkey, Hpk.
    destruct (String.eqb_spec A ""); [contradiction|].
    unfold bind at 1. simpl. unfold bind at 1, new_Date. unfold bind at 1.
    rewrite (Hstop (fun n _ => Hnever n)).
    unfold bind, findOneAndUpdate_account. rewrite Hu. unfold ret.
    split; [reflexivity|]. simpl. rewrite Hpk.
    apply String.eqb_eq in Hx.
    split; [exact Hx|]. split; [reflexivity|]. split; [|split; reflexivity].
    unfold findAccount. apply find_app_first.
    + intros y Hy. now apply Hl1.
    + simpl. now apply String.eqb_eq.
Qed.

(** *** createAccount *)

Lemma validateAccountStructure_store data s :
  snd (validateAccountStructure data s) = s.
Proof.
  unfold validateAccountStructure, bind, when_throw, throw, ret.
  repeat match goal with |- context [if ?b then _ else _] => destruct b; simpl end;
    reflexivity.
Qed.

Lemma validateAccountStructure_error data s e s' :
  validateAccountStructure data s = (Throw e, s') -> e = ValidationError.
Proof.
  unfold validateAccountStructure, bind, when_throw, throw, ret.
  repeat match goal with |- context [if ?b then _ else _] => destruct b; simpl end;
    congruence.
Qed.

Lemma validateAccountStructure_ok data s :
  validateAccountStructure data s = (Ok tt, s) <->
  ~ missing_field data /\ ~ inconsistent data /\
  (forall c, ca_code data = Some c -> parseInt_isNaN c = false).
Proof.
  unfold validateAccountStructure, missing_field, inconsistent.
  destruct (ca_key data) as [k|], (ca_code data) as [c|], (ca_name data) as [n|],
           (ca_type data) as [t|], (ca_parentGroup data) as [g|],
           (ca_group data) as [gr|]; simpl;
    try (split; [discriminate|intros (H & _); exfalso; apply H; tauto]);
    try (unfold bind, when_throw, throw; simpl; rewrite ?orb_true_r; simpl;
         split; [discriminate|intros (H & _); exfalso; apply H; tauto]).
  unfold bind, when_throw, throw, ret.
  destruct (String.eqb k ""), (String.eqb c ""), (String.eqb n ""),
           (String.eqb gr ""); simpl;
    try (split; [discriminate|intros (H & _); exfalso; apply H; tauto]).
  destruct (parseInt_isNaN c) eqn:Ec; simpl.
  { split; [discriminate|]. intros (_ & _ & H). specialize (H c eq_refl). congruence. }
  destruct t, g; simpl;
    try (split; [discriminate|];
         intros (_ & H & _); exfalso; apply H; do 2 eexists; repeat split; reflexivity);
    (split; [intros _|reflexivity]);
    (split; [intros H; decompose [or] H; discriminate|]);
    (split; [intros (t & g & [= <-] & [= <-] & H); discriminate
            |intros c' [= <-]; exact Ec]).
Qed.

Lemma numeric_string_parses (c : string) :
  numeric_string c = true -> parseInt_isNaN c = false.
Proof.
  unfold numeric_string, parseInt_isNaN.
  destruct c as [|ch c]; simpl; [discriminate|].
  rewrite andb_true_iff. intros (Hd & _).
  assert (Hn : (48 <= nat_of_ascii ch <= 57)%nat).
  { unfold is_digit in Hd. rewrite andb_true_iff, !Nat.leb_le in Hd. exact Hd. }
  assert (Hw : is_white_space ch = false).
  { unfold is_white_space. apply orb_false_iff. split.
    - apply andb_false_iff. right. apply Nat.leb_gt. lia.
    - apply Nat.eqb_neq. lia. }
  rewrite Hw.
  assert (Hs : (Ascii.eqb ch "+" || Ascii.eqb ch "-")%char = false).
  { apply orb_false_iff. split; apply Ascii.eqb_neq; intros ->.
    - change (nat_of_ascii "+") with 43%nat in Hn. lia.
    - change (nat_of_ascii "-") with 45%nat in Hn. lia. }
  cbn [skip_sign].
  rewrite Hs. now rewrite Hd.
Qed.

Lemma parent_check_iff (data : CreateAccountInput) (s : Store) :
  match ca_parentAccountKey data with
  | Some pk => negb (String.eqb pk "") && negb (is_some (findAccount pk (accounts s)))
  | None => false
  end = true <-> parent_unknown data s.
Proof.
  unfold parent_unknown. destruct (ca_parentAccountKey data) as [pk|].
  - rewrite andb_true_iff, !negb_true_iff. split.
    + intros (H1 & H2). exists pk. apply String.eqb_neq in H1.
      destruct (findAccount pk (accounts s)); [discriminate|]. tauto.
    + intros (pk' & [= <-] & H1 & H2). rewrite H2. apply String.eqb_neq in H1. tauto.
  - split; [discriminate|]. intros (pk & H & _). discriminate.
Qed.

Lemma duplicate_check_iff (data : CreateAccountInput) (s : Store) :
  existsb (fun a => opt_eqb (ca_key data) (a_key a) || opt_eqb (ca_code data) (a_code a))
          (accounts s) = true <-> duplicate data s.
Proof.
  unfold duplicate. rewrite existsb_exists.
  split; intros (a & Hin & H); exists a; (split; [exact Hin|]).
  - apply orb_true_iff in H. now rewrite !opt_eqb_eq in H.
  - apply orb_true_iff. now rewrite !opt_eqb_eq.
Qed.

(** What holds of [createAccount]: every input missing a required field,
    with a code that [parseInt] cannot read, with an inconsistent type and
    parent group, with an unknown parent or with a duplicate key or code is
    refused with [ValidationError] and nothing is stored; and an accepted
    input is stored as an active account. *)
Lemma createAccount_rules (data : CreateAccountInput) (s : Store) :
  (missing_field data \/
   (exists c, ca_code data = Some c /\ parseInt_isNaN c = true) \/
   inconsistent data \/ parent_unknown data s \/ duplicate data s ->
   createAccount data s = (Throw ValidationError, s)) /\
  (forall a s', createAccount data s = (Ok a, s') ->
     a_isActive a = true /\ accounts s' = accounts s ++ [a] /\
     ca_key data = Some (a_key a) /\ ca_code data = Some (a_code a) /\
     journals s' = journals s /\ transactions s' = transactions s).
Proof.
  remember (createAccount data s) as r eqn:Hr.
  unfold createAccount in Hr. unfold bind at 1 in Hr.
  pose proof (validateAccountStructure_store data s) as Hst.
  pose proof (validateAccountStructure_error data s) as Herr.
  pose proof (validateAccountStructure_ok data s) as Hok.
  destruct (validateAccountStructure data s) as [[[]|e] s0]; simpl in Hst; subst s0.
  2:{ rewrite (Herr e s eq_refl) in Hr. subst r.
      split; [intros _; reflexivity|intros a s' H; discriminate H]. }
  destruct Hok as (Hok & _). destruct (Hok eq_refl) as (Hmiss & Hinc & Hcode).
  clear Hok Herr.
  unfold bind at 1, get_store in Hr. unfold bind at 1 in Hr.
  pose proof (parent_check_iff data s) as Hp.
  destruct (match ca_parentAccountKey data with Some _ => _ | None => _ end).
  { simpl in Hr. subst r.
    split; [intros _; reflexivity|intros a s' H; discriminate H]. }
  simpl in Hr. unfold bind at 1 in Hr.
  pose proof (duplicate_check_iff data s) as Hd.
  destruct (existsb _ (accounts s)).
  { simpl in Hr. subst r.
    split; [intros _; reflexivity|intros a s' H; discriminate H]. }
  simpl in Hr. split.
  { intros [H|[(c & Hc & Hn)|[H|[H|H]]]].
    - contradiction.
    - rewrite (Hcode c Hc) in Hn. discriminate.
    - contradiction.
    - apply Hp in H. discriminate.
    - apply Hd in H. discriminate. }
  unfold bind, new_Date, new_ObjectId in Hr; simpl in Hr.
  unfold missing_field in Hmiss.
  destruct (ca_key data) as [k|]; [|exfalso; apply Hmiss; simpl; tauto].
  destruct (ca_code data) as [c|]; [|exfalso; apply Hmiss; simpl; tauto].
  destruct (ca_name data) as [n|]; [|exfalso; apply Hmiss; simpl; tauto].
  destruct (ca_type data) as [t|]; [|exfalso; apply Hmiss; simpl; tauto].
  destruct (ca_parentGroup data) as [g|]; [|exfalso; apply Hmiss; simpl; tauto].
  destruct (ca_group data) as [gr|]; [|exfalso; apply Hmiss; simpl; tauto].
  simpl in Hr. subst r. intros a s' [= <- <-]. simpl. repeat split.
Qed.

(** C6, at its failing input.  The code ["1abc"] is not a numeric string,
    yet [createAccount] accepts the input and stores the account. *)
Theorem createAccount_accepts_lettered_code :
  ca_code lettered_code_input = Some "1abc" /\ numeric_string "1abc" = false /\
  exists a s', createAccount lettered_code_input chart_store = (Ok a, s') /\
               a_code a = "1abc" /\ a_isActive a = true /\
               accounts s' = accounts chart_store ++ [a].
Proof.
  split; [reflexivity|]. split; [reflexivity|].
  eexists. eexists. split; [vm_compute; reflexivity|].
  repeat split.
Qed.

(** *** voidJournalsByIdentifier *)

(** *** voidJournalsByIdentifier *)

Lemma update_many_none {A} (p : A -> bool) (f : A -> A) l :
  (forall x, In x l -> p x = false) -> update_many p f l = l.
Proof.
  induction l as [|x l IH]; simpl; intros H; [reflexivity|].
  rewrite (H x (or_introl eq_refl)), IH; [reflexivity|].
  intros y Hy. apply H. now right.
Qed.

Lemma identifies_iff identifier j : identifies identifier j = true <-> selects identifier j.
Proof.
  destruct identifier as [id|rt rid]; simpl.
  - apply Nat.eqb_eq.
  - now rewrite andb_true_iff, !opt_eqb_eq.
Qed.

Lemma to_void_iff identifier j :
  identifies identifier j && negb (j_voided j) = true <-> to_void identifier j.
Proof.
  unfold to_void. now rewrite andb_true_iff, identifies_iff, negb_true_iff.
Qed.

Lemma to_cascade_iff identifier s t :
  existsb (Nat.eqb (t_journalId t))
          (map j_id (filter (fun j => identifies identifier j && negb (j_voided j))
                            (journals s)))
  && negb (t_voided t) = true
  <-> to_cascade identifier s t.
Proof.
  unfold to_cascade. rewrite andb_true_iff, negb_true_iff, existsb_exists. split.
  - intros ((id & Hin & Hid) & Hv). split; [exact Hv|].
    apply in_map_iff in Hin. destruct Hin as (j & <- & Hj).
    apply filter_In in Hj. destruct Hj as (Hj & Hsel).
    exists j. split; [exact Hj|]. split; [now apply to_void_iff|].
    now apply Nat.eqb_eq.
  - intros (Hv & j & Hj & Hsel & Hid). split; [|exact Hv].
    exists (j_id j). split; [|now apply Nat.eqb_eq].
    apply in_map. apply filter_In. split; [exact Hj|]. now apply to_void_iff.
Qed.

(** An [updateMany] relates each document to its image. *)
Lemma update_many_Forall2 {A} (P : A -> Prop) (p : A -> bool) (f : A -> A) l :
  (forall x, p x = true <-> P x) ->
  Forall2 (fun x x' => (P x -> x' = f x) /\ (~ P x -> x' = x)) l (update_many p f l).
Proof.
  intros H. induction l as [|x l IH]; simpl; constructor; [|exact IH].
  destruct (p x) eqn:E.
  - split; [reflexivity|]. intros Hn. elim Hn. now apply H.
  - split; [|reflexivity]. intros HP. apply H in HP. congruence.
Qed.

(** The documents that an [updateMany] voids are those it selects, when it
    selects non-voided documents only. *)
Lemma update_many_newly_voided {A} (voided : A -> bool) (p : A -> bool) (f : A -> A) l :
  (forall x, p x = true -> voided x = false /\ voided (f x) = true) ->
  newly_voided voided l (update_many p f l) = List.length (filter p l).
Proof.
  intros H. unfold newly_voided. induction l as [|x l IH]; [reflexivity|].
  cbn [update_many map combine filter fst snd]. fold (update_many p f l).
  destruct (p x) eqn:E.
  - destruct (H x E) as (-> & ->). simpl. now rewrite IH.
  - destruct (voided x); simpl; exact IH.
Qed.

(** C9. [voidJournalsByIdentifier] always succeeds.  Each journal that the
    identifier names (by id, or by the pair of reference type and reference
    id) and that is not voided yet becomes voided with the given reason;
    each entry not voided yet of such a journal becomes voided; every other
    journal and entry, and every account, stays as it is.  The result
    counts the journals and the entries whose [voided] flag it has turned.
    Afterwards every journal that the identifier names is voided.  When the
    identifier names no journal that is not voided, the counts are zero and
    the store is unchanged. *)
Theorem voidJournalsByIdentifier_counts (identifier : JournalIdentifier)
    (reason : string) (s : Store) :
  exists res s',
    voidJournalsByIdentifier identifier reason s = (Ok res, s') /\
    Forall2 (bulk_voided identifier reason (clock s)) (journals s) (journals s') /\
    Forall2 (bulk_cascaded identifier s (clock s)) (transactions s) (transactions s') /\
    accounts s' = accounts s /\ next_oid s' = next_oid s /\ clock s' = clock s /\
    journalsVoided res = newly_voided j_voided (journals s) (journals s') /\
    transactionsVoided res = newly_voided t_voided (transactions s) (transactions s') /\
    (forall j, In j (journals s') -> selects identifier j -> j_voided j = true) /\
    ((forall j, In j (journals s) -> ~ to_void identifier j) ->
     res = mkVoidJournalResult 0 0 /\ s' = s).
Proof.
  eexists. eexists.
  split; [cbv [voidJournalsByIdentifier bind new_Date get_store set_journals
               set_transactions ret]; reflexivity|].
  cbn [journalsVoided transactionsVoided journals transactions accounts next_oid clock].
  set (selected := fun j => identifies identifier j && negb (j_voided j)).
  set (cascade := fun t => existsb (Nat.eqb (t_journalId t))
                                   (map j_id (filter selected (journals s)))
                           && negb (t_voided t)).
  split.
  { apply (update_many_Forall2 (to_void identifier)). intros j. apply to_void_iff. }
  split.
  { apply (update_many_Forall2 (to_cascade identifier s)). intros t.
    apply to_cascade_iff. }
  do 3 (split; [reflexivity|]).
  split.
  { rewrite update_many_newly_voided; [now rewrite length_map|].
    intros j Hj. unfold selected in Hj. apply andb_true_iff in Hj.
    destruct Hj as (_ & Hv). now apply negb_true_iff in Hv. }
  split.
  { rewrite update_many_newly_voided; [reflexivity|].
    intros t Ht. unfold cascade in Ht. apply andb_true_iff in Ht.
    destruct Ht as (_ & Hv). now apply negb_true_iff in Hv. }
  split.
  { intros j Hj Hsel. unfold update_many in Hj. apply in_map_iff in Hj.
    destruct Hj as (j0 & <- & _).
    destruct (selected j0) eqn:E; [reflexivity|].
    destruct (j_voided j0) eqn:Ev; [reflexivity|].
    assert (Hs0 : selected j0 = true); [|congruence].
    apply to_void_iff. split; [exact Hsel|exact Ev]. }
  intros Hnone.
  assert (Hsel : forall j, In j (journals s) -> selected j = false).
  { intros j Hj. apply not_true_iff_false. intros H. apply to_void_iff in H.
    now apply (Hnone j Hj). }
  assert (Hnil : filter selected (journals s) = []) by now apply filter_none.
  assert (Hc : forall t, cascade t = false).
  { intros t. unfold cascade. now rewrite Hnil. }
  rewrite Hnil. simpl. split.
  - rewrite filter_none; [reflexivity|]. intros t _. apply Hc.
  - rewrite (update_many_none _ _ (journals s)) by exact Hsel.
    rewrite (update_many_none _ _ (transactions s)) by (intros t _; apply Hc).
    destruct s; reflexivity.
Qed.

(** The bulk void at work: in [cents_store] with both journals given the
    reference of one contract, the bulk void by that reference voids the two
    journals and the four entries, and a second one voids nothing. *)
Lemma voidJournalsByIdentifier_example :
  let tag j := mkJournal (j_id j) (j_memo j) (j_datetime j) (Some "contract") (Some "L-1")
                         (j_voided j) (j_voidReason j) (j_createdAt j) (j_updatedAt j) in
  let s := mkStore (accounts cents_store) (map tag (journals cents_store))
                   (transactions cents_store) (next_oid cents_store) (clock cents_store) in
  exists s',
    voidJournalsByIdentifier (ByReference "contract" "L-1") "reissued" s
    = (Ok (mkVoidJournalResult 2 4), s') /\
    voidJournalsByIdentifier (ByReference "contract" "L-1") "reissued" s'
    = (Ok (mkVoidJournalResult 0 0), s') /\
    voidJournalsByIdentifier (ByJournalId 3) "reissued" s
    = (Ok (mkVoidJournalResult 1 2),
       mkStore (accounts s)
         [ mkJournal 3 "loan" 1000%Z (Some "contract") (Some "L-1") true (Some "reissued")
                     0%Z 0%Z;
           mkJournal 6 "deposit" 2000%Z (Some "contract") (Some "L-1") false None 0%Z 0%Z ]
         [ mkTransactionLine 4 3 "CASH" "1000" 250.5 0 None 1000%Z true 0%Z 0%Z;
           mkTransactionLine 5 3 "LOAN" "2000" 0 250.5 None 1000%Z true 0%Z 0%Z;
           mkTransactionLine 7 6 "BANK" "1010" 100.25 0 None 2000%Z false 0%Z 0%Z;
           mkTransactionLine 8 6 "CASH" "1000" 0 100.25 None 2000%Z false 0%Z 0%Z ]
         9%nat 0%Z).
Proof.
  eexists. split; [vm_compute; reflexivity|]. split; vm_compute; reflexivity.
Qed.
(** *** postJournal, the accepted request *)

Lemma set_has_In k l : set_has k l = true <-> In k l.
Proof.
  unfold set_has. rewrite existsb_exists. split.
  - intros (x & Hx & He). apply String.eqb_eq in He. now subst.
  - intros H. exists k. split; [exact H|apply String.eqb_refl].
Qed.

Lemma check_lines_keys lines : forall acc acc',
  check_lines acc lines = inr acc' ->
  forall k, set_has k (accountKeys acc') = true <->
            set_has k (accountKeys acc) = true \/
            exists line, In line lines /\ li_accountKey line = k.
Proof.
  induction lines as [|l ls IH]; intros acc acc'; simpl.
  - intros [= <-] k. split; [tauto|]. intros [H|(l & [] & _)]. exact H.
  - destruct (check_line acc l) as [e|acc1] eqn:E; [discriminate|].
    intros H k. rewrite (IH _ _ H k).
    assert (Hk : accountKeys acc1 = set_add (li_accountKey l) (accountKeys acc)).
    { unfold check_line in E.
      repeat match type of E with
             | (if ?b then _ else _) = _ => destruct b; try discriminate
             end.
      now injection E as <-. }
    rewrite Hk, set_has_add. split.
    + intros [[->|H1]|(line & Hin & Hl)]; [right|tauto|right].
      * exists l. split; [now left|reflexivity].
      * exists line. split; [now right|exact Hl].
    + intros [H1|(line & [<-|Hin] & Hl)]; [tauto|left; left; now symmetry|right].
      exists line. now split.
Qed.

Lemma mapM_transactionDoc_ok accts m j d now lines :
  (forall line, In line lines ->
     exists a, map_get (li_accountKey line) m = Some a /\ In a accts /\
               a_key a = li_accountKey line) ->
  forall s, exists docs,
    mapM (transactionDoc m j d now) lines s
    = (Ok docs, mkStore (accounts s) (journals s) (transactions s)
                        (next_oid s + List.length lines) (clock s)) /\
    Forall2 (posted accts j d) lines docs.
Proof.
  induction lines as [|l ls IH]; intros Hm s.
  - exists []. simpl. unfold ret. rewrite Nat.add_0_r. split; [now destruct s|constructor].
  - destruct (Hm l (or_introl eq_refl)) as (a & Ha & Hin & Hk).
    destruct (IH (fun x Hx => Hm x (or_intror Hx))
                 (mkStore (accounts s) (journals s) (transactions s)
                          (S (next_oid s)) (clock s))) as (docs & Hdocs & HF).
    eexists. simpl. unfold transactionDoc at 1. rewrite Ha.
    unfold bind at 1. unfold bind at 1. unfold new_ObjectId at 1. unfold ret at 1.
    unfold bind at 1. rewrite Hdocs. unfold ret. simpl.
    rewrite <- Nat.add_succ_comm. split; [reflexivity|].
    constructor; [|exact HF].
    unfold posted; simpl. repeat split. now exists a.
Qed.

(** A well-formed, balanced request on known, active accounts is stored:
    one journal and one entry per line. *)
Lemma postJournal_ok (data : PostJournalInput) (s : Store) l datetime memo acc :
  pj_lines data = Some l -> (2 <= List.length l)%nat ->
  pj_datetime data = Some datetime -> pj_memo data = Some memo -> memo <> "" ->
  check_lines (mkLineAcc 0 0 []) l = inr acc ->
  num_eq (round (totalDebit acc)) (round (totalCredit acc)) = true ->
  (forall line, In line l ->
     exists a, In a (accounts s) /\ a_key a = li_accountKey line) ->
  (forall a line, In a (accounts s) -> In line l -> a_key a = li_accountKey line ->
                  a_isActive a = true) ->
  exists docs,
    let journalDoc := mkJournal (next_oid s) memo datetime (pj_referenceType data)
                                (pj_referenceId data) false None (clock s) (clock s) in
    postJournal data s
    = (Ok (mkPostJournalResult journalDoc docs),
       mkStore (accounts s) (journals s ++ [journalDoc]) (transactions s ++ docs)
               (S (next_oid s) + List.length l) (clock s)) /\
    Forall2 (posted (accounts s) (next_oid s) datetime) l docs.
Proof.
  intros Hl Hlen Hdt Hmemo Hne Hcl Hbal Hknown Hactive.
  pose proof (check_lines_keys _ _ _ Hcl) as Hkeys.
  set (accts := filter (fun a => set_has (a_key a) (accountKeys acc)) (accounts s)).
  assert (Hmap : forall line, In line l ->
            exists a, map_get (li_accountKey line) (account_map accts) = Some a /\
                      In a (accounts s) /\ a_key a = li_accountKey line).
  { intros line Hin. destruct (Hknown line Hin) as (a & Ha & Hk).
    destruct (account_map_known accts (li_accountKey line)) as (a' & Hget & Hin' & Hk').
    - exists a. split; [|exact Hk]. apply filter_In. split; [exact Ha|].
      apply Hkeys. right. exists line. now split.
    - exists a'. split; [exact Hget|]. split; [|exact Hk'].
      apply filter_In in Hin'. tauto. }
  destruct (mapM_transactionDoc_ok (accounts s) (account_map accts) (next_oid s)
              datetime (clock s) l Hmap
              (mkStore (accounts s) (journals s) (transactions s)
                       (S (next_oid s)) (clock s))) as (docs & Hdocs & HF).
  exists docs. cbv zeta. split; [|exact HF].
  unfold postJournal, lines_of. rewrite Hl, Hdt, Hmemo, Hcl.
  apply Nat.ltb_ge in Hlen. rewrite Hlen.
  unfold truthy. apply String.eqb_neq in Hne. rewrite Hne. rewrite Hbal.
  unfold bind at 1. simpl. unfold bind at 1. simpl. unfold bind at 1. simpl.
  unfold bind at 1, get_store. fold accts.
  rewrite (filter_none _ (accountKeys acc)).
  2:{ intros k Hk. apply negb_false_iff. unfold map_has.
      apply set_has_In in Hk. apply Hkeys in Hk.
      destruct Hk as [Hk|(line & Hin & <-)]; [discriminate|].
      destruct (Hmap line Hin) as (a & -> & _). reflexivity. }
  rewrite (filter_none _ accts).
  2:{ intros a Ha. apply negb_false_iff. apply filter_In in Ha. destruct Ha as (Ha & Hk).
      apply Hkeys in Hk. destruct Hk as [Hk|(line & Hin & Hk)]; [discriminate|].
      now apply (Hactive a line). }
  unfold bind at 1. simpl. unfold bind at 1. simpl.
  unfold bind at 1, new_Date. unfold bind at 1, new_ObjectId.
  unfold bind at 1. cbn [accounts journals transactions next_oid clock].
  rewrite Hdocs. reflexivity.
Qed.

(** *** applyOpeningBalance *)

Lemma voidExistingOpeningBalance_run (accountKey : string) (s : Store) :
  exists s1,
    voidExistingOpeningBalance accountKey s = (Ok tt, s1) /\
    prior_voided accountKey s s1 /\
    accounts s1 = accounts s /\ next_oid s1 = next_oid s /\ clock s1 = clock s /\
    (only_opening_balance accountKey s ->
     forall t, In t (transactions s1) -> t_accountKey t = accountKey -> t_voided t = true).
Proof.
  unfold voidExistingOpeningBalance, prior_voided, only_opening_balance,
         prior_opening_balance, bind, get_store.
  destruct (find _ (journals s)) as [j0|] eqn:E.
  - apply find_some in E. destruct E as (Hin & Hp).
    rewrite !andb_true_iff, negb_true_iff in Hp. destruct Hp as (_ & Hv).
    destruct (voidJournal_live (j_id j0) "Updated opening balance" s)
      as (js1 & j & js2 & _ & _ & _ & Hrun).
    { exists j0. split; [exact Hin|]. now split. }
    rewrite Hrun. eexists. split; [reflexivity|]. split; [reflexivity|].
    simpl. repeat split. intros Hframe t Ht Hk.
    unfold update_many in Ht. apply in_map_iff in Ht. destruct Ht as (t0 & <- & Ht0).
    destruct (Nat.eqb_spec (t_journalId t0) (j_id j0)) as [Hj|Hj]; [reflexivity|].
    destruct (t_voided t0) eqn:Ev; [reflexivity|].
    destruct (Hframe t0 Ht0 Hk Ev) as (j1 & [= <-] & Hj1). contradiction.
  - exists s. repeat split. intros Hframe t Ht Hk.
    destruct (t_voided t) eqn:Ev; [reflexivity|].
    destruct (Hframe t Ht Hk Ev) as (j1 & Hj1 & _). discriminate.
Qed.

Lemma findAccount_key k accts a : findAccount k accts = Some a -> In a accts /\ a_key a = k.
Proof.
  intros H. apply find_some in H. now rewrite String.eqb_eq in H.
Qed.

Lemma findAccount_unique k accts a a' :
  NoDup (map a_key accts) -> findAccount k accts = Some a ->
  In a' accts -> a_key a' = k -> a' = a.
Proof.
  induction accts as [|x accts IH]; simpl; intros Hnd Hf Hin Hk; [contradiction|].
  inversion Hnd as [|? ? Hnotin Hnd']; subst.
  destruct (String.eqb_spec (a_key x) (a_key a')) as [He|He].
  - injection Hf as <-. destruct Hin as [->|Hin]; [reflexivity|].
    exfalso. apply Hnotin. rewrite He. now apply in_map.
  - destruct Hin as [->|Hin]; [contradiction|]. now apply IH.
Qed.

Lemma check_lines_good lines acc :
  (forall l, In l lines -> ~ bad_line l) -> exists acc', check_lines acc lines = inr acc'.
Proof.
  intros Hgood. destruct (check_lines acc lines) as [e|acc'] eqn:E; [|now exists acc'].
  destruct (check_lines_error _ _ _ E) as (_ & l & Hin & Hbad).
  now elim (Hgood l Hin).
Qed.

Lemma opening_amounts :
  round 500 = 500 /\ round (Math_abs (round 500)) = 500 /\ round 0 = 0 /\
  num_eq (round 500) 0 = false /\ num_gt0 (round 500) = true /\
  or0 (Some 500) = 500 /\ or0 (Some 0) = 0 /\ Number_isNaN 500 = false.
Proof. vm_compute. repeat split. Qed.

(** A number that rounds to zero is not [NaN]. *)
Lemma round_zero_not_nan (x : number) : (round x =? 0) = true -> Number_isNaN x = false.
Proof.
  intros H. unfold Number_isNaN. destruct (is_nan x) eqn:E; [|reflexivity].
  apply is_nan_nan in E. subst x. vm_compute in H. discriminate.
Qed.

(** C8. Let CASH be an active account of the asset group, let the default
    offset account be present and active, and let the only non-voided
    entries of CASH be those of its prior opening-balance journal.  Then [applyOpeningBalance] with amount 500 voids that prior
    journal if there is one, posts one journal of two lines, CASH debited
    500 and the offset account credited 500, and afterwards
    [getAccountBalance] of CASH returns debit 500, credit 0, balance 500.
    With an amount that rounds to zero it only voids the prior journal and
    returns [null]. *)
Theorem applyOpeningBalance_cash (data : ApplyOpeningBalanceInput) (s : Store)
    (cash obe : Account) :
  findAccount (ob_accountKey data) (accounts s) = Some cash ->
  a_isActive cash = true -> a_parentGroup cash = g_asset ->
  ob_offsetAccountKey data = None ->
  findAccount "OPENING_BALANCE_EQUITY" (accounts s) = Some obe ->
  a_isActive obe = true ->
  ob_accountKey data <> "OPENING_BALANCE_EQUITY" ->
  keys_unique s ->
  exists s1, prior_voided (ob_accountKey data) s s1 /\
  (ob_amount data = Some 500 ->
   only_opening_balance (ob_accountKey data) s ->
   exists journal t1 t2 s' res,
     applyOpeningBalance data s = (Ok (Some (mkPostJournalResult journal [t1; t2])), s') /\
     journals s' = journals s1 ++ [journal] /\
     transactions s' = transactions s1 ++ [t1; t2] /\
     j_referenceType journal = Some OPENING_BALANCE_REFERENCE_TYPE /\
     j_referenceId journal = Some (ob_accountKey data) /\
     j_voided journal = false /\
     t_journalId t1 = j_id journal /\ t_journalId t2 = j_id journal /\
     t_accountKey t1 = ob_accountKey data /\ t_debit t1 = 500 /\ t_credit t1 = 0 /\
     t_accountKey t2 = "OPENING_BALANCE_EQUITY" /\ t_debit t2 = 0 /\ t_credit t2 = 500 /\
     getAccountBalance (mkBalanceQuery (ob_accountKey data) None None None) s'
       = (Ok res, s') /\
     debit res = 500 /\ credit res = 0 /\ balance res = 500) /\
  (forall amount, ob_amount data = Some amount -> (round amount =? 0) = true ->
                  applyOpeningBalance data s = (Ok None, s1)).
Proof.
  intros Hcash Hact Hgroup Hoff Hobe Hobeact Hneq Huniq.
  destruct (voidExistingOpeningBalance_run (ob_accountKey data) s)
    as (s1 & Hvoid & Hprior & Hacc1 & Hoid1 & Hclock1 & Hframe).
  exists s1. split; [exact Hprior|].
  destruct (findAccount_key _ _ _ Hcash) as (Hcin & Hckey).
  destruct (findAccount_key _ _ _ Hobe) as (Hoin & Hokey).
  destruct opening_amounts as (Hr500 & Habs & Hr0 & Hnz & Hpos & Ho500 & Ho0 & Hnan).
  split.
  - intros Hamount Honly. specialize (Hframe Honly).
    set (line1 := mkLineInput (a_key cash) (Some (round (Math_abs (round 500))))
                              (Some (round 0)) (ob_meta data)).
    set (line2 := mkLineInput (a_key obe) (Some (round 0))
                    (Some (round (Math_abs (round 500))))
                    (Some (map_set "offsetFor" (a_key cash)
                             (match ob_meta data with Some m => m | None => [] end)))).
    set (memo := if truthy (ob_memo data) then ob_memo data
                 else Some ("Opening balance for " ++ a_name cash)%string).
    set (datetime := match ob_datetime data with Some d => d | None => clock s1 end).
    set (req := mkPostJournalInput memo (Some datetime)
                  (Some OPENING_BALANCE_REFERENCE_TYPE) (Some (a_key cash))
                  (Some [line1; line2])).
    assert (Hgood : forall l, In l [line1; line2] -> ~ bad_line l).
    { intros l [<-|[<-|[]]]; unfold bad_line, line_negative, line_both_zero,
        line_both_nonzero, amount; cbn [li_debit li_credit line1 line2];
        rewrite ?Habs, ?Hr0, ?Ho500, ?Ho0;
        intros [[H|H]|[[H1 H2]|[H1 H2]]]; vm_compute in *; discriminate. }
    destruct (check_lines_good [line1; line2] (mkLineAcc 0 0 []) Hgood) as (acc & Hcl).
    destruct (check_lines_ok _ _ _ Hcl) as (_ & Hd & Hc).
    cbn [fold_left totalDebit totalCredit li_debit li_credit line1 line2 amount] in Hd, Hc.
    unfold amount in Hd, Hc. rewrite Habs, Hr0, Ho500, Ho0 in Hd, Hc.
    assert (Hmemo : exists m, memo = Some m /\ m <> "").
    { unfold memo. destruct (ob_memo data) as [m|] eqn:Em; simpl.
      - destruct (String.eqb_spec m "") as [->|Hm]; simpl.
        + eexists. split; [reflexivity|discriminate].
        + exists m. split; [reflexivity|exact Hm].
      - eexists. split; [reflexivity|discriminate]. }
    destruct Hmemo as (m & Hm & Hmne).
    destruct (postJournal_ok req s1 [line1; line2] datetime m acc)
      as (docs & Hpost & HF); try reflexivity; try assumption.
    { rewrite Hd, Hc. reflexivity. }
    { rewrite Hacc1. intros l [<-|[<-|[]]];
        [exists cash; split; [exact Hcin|reflexivity]
        |exists obe; split; [exact Hoin|reflexivity]]. }
    { rewrite Hacc1. intros a l Ha [<-|[<-|[]]] Hk; simpl in Hk.
      - rewrite Hckey in Hk. rewrite (findAccount_unique _ _ _ a Huniq Hcash Ha Hk).
        exact Hact.
      - rewrite Hokey in Hk. rewrite (findAccount_unique _ _ _ a Huniq Hobe Ha Hk).
        exact Hobeact. }
    cbv zeta in Hpost.
    inversion HF as [|? t1 ? docs1 Hp1 HF1]; subst.
    inversion HF1 as [|? t2 ? docs2 Hp2 HF2]; subst.
    inversion HF2; subst. clear HF HF1 HF2.
    destruct Hp1 as (Hj1 & Hk1 & Hd1 & Hc1 & _ & _ & Hv1 & _).
    destruct Hp2 as (Hj2 & Hk2 & Hd2 & Hc2 & _ & _ & Hv2 & _).
    unfold line1, line2 in Hk1, Hd1, Hc1, Hk2, Hd2, Hc2.
    cbn [li_accountKey li_debit li_credit] in Hk1, Hd1, Hc1, Hk2, Hd2, Hc2.
    do 2 eexists. exists t2. do 2 eexists.
    split.
    { unfold applyOpeningBalance. rewrite Hamount, Hnan.
      cbn [when_throw]. unfold bind at 1, ret at 1.
      unfold bind at 1, get_store. rewrite Hcash, Hact.
      cbn [negb when_throw]. unfold bind at 1, ret at 1.
      unfold bind at 1. rewrite Hvoid.
      rewrite Hnz. unfold bind at 1. unfold ensureOpeningBalanceOffsetAccount.
      rewrite Hoff. unfold bind at 1, get_store. rewrite Hacc1, Hobe.
      unfold ret at 1. unfold bind at 1, new_Date.
      rewrite Hpos. unfold isDebitNormal. rewrite Hgroup.
      match goal with
      | |- ?lhs = _ =>
          change lhs with (bind (postJournal req) (fun r => ret (Some r)) s1)
      end.
      unfold bind. rewrite Hpost. reflexivity. }
    cbn [journals transactions accounts j_referenceType j_referenceId j_voided j_id].
    rewrite Hd1, Hc1, Hd2, Hc2, Habs, Hr0, Ho500, Ho0.
    unfold req; cbn [pj_referenceId pj_referenceType]. rewrite Hckey.
    do 5 (split; [reflexivity|]).
    split; [exact Hj1|]. split; [exact Hj2|].
    split; [rewrite Hk1; exact Hckey|].
    split; [reflexivity|]. split; [reflexivity|].
    split; [rewrite Hk2; exact Hokey|].
    split; [reflexivity|]. split; [reflexivity|].
    assert (Hmatched :
      filter (balance_match (mkBalanceQuery (ob_accountKey data) None None None))
             (transactions s1 ++ [t1; t2]) = [t1]).
    { rewrite filter_app, filter_none.
      - simpl. unfold balance_match at 1; simpl.
        rewrite Hk1, Hckey, String.eqb_refl, Hv1. simpl.
        unfold balance_match; simpl. rewrite Hk2, Hokey.
        apply not_eq_sym, String.eqb_neq in Hneq. rewrite Hneq. reflexivity.
      - intros t Ht. unfold balance_match; simpl.
        destruct (String.eqb_spec (t_accountKey t) (ob_accountKey data)) as [Hk|Hk];
          [|reflexivity].
        rewrite (Hframe t Ht Hk). reflexivity. }
    split.
    { unfold getAccountBalance, bind, get_store. simpl.
      rewrite Hmatched, Hacc1, Hcash. reflexivity. }
    cbn [debit credit balance]. unfold getNetBalance. rewrite Hgroup.
    cbn [AccountParentGroup_eqb orb].
    unfold sum_of; cbn [fold_left]. rewrite Hd1, Hc1, Habs, Hr0, Ho500, Ho0.
    vm_compute. repeat split.
  - intros amount Hamount Hzero.
    unfold applyOpeningBalance. rewrite Hamount, (round_zero_not_nan _ Hzero).
    cbn [when_throw]. unfold bind at 1, ret at 1.
    unfold bind at 1, get_store. rewrite Hcash, Hact.
    cbn [negb when_throw]. unfold bind at 1, ret at 1.
    unfold bind at 1. rewrite Hvoid.
    unfold num_eq. rewrite Hzero. reflexivity.
Qed.

(** *** Worked examples *)

Lemma applyOpeningBalance_cash_witness :
  exists journal t1 t2 s' res,
    applyOpeningBalance (opening_balance_input 500) reseed_store
      = (Ok (Some (mkPostJournalResult journal [t1; t2])), s') /\
    t_debit t1 = 500 /\ t_credit t2 = 500 /\
    getAccountBalance (mkBalanceQuery "CASH" None None None) s' = (Ok res, s') /\
    debit res = 500 /\ credit res = 0 /\ balance res = 500.
Proof.
  assert (Huniq : keys_unique reseed_store).
  { unfold keys_unique. simpl. repeat constructor; simpl; intuition discriminate. }
  assert (Honly : only_opening_balance "CASH" reseed_store).
  { intros t Ht Hk Hv. eexists. split; [reflexivity|].
    simpl in Ht. destruct Ht as [<-|[<-|[]]]; [reflexivity|discriminate Hk]. }
  destruct (applyOpeningBalance_cash (opening_balance_input 500) reseed_store CASH OBE
              eq_refl eq_refl eq_refl eq_refl eq_refl eq_refl
              ltac:(discriminate) Huniq) as (s1 & _ & H & _).
  destruct (H eq_refl Honly)
    as (journal & t1 & t2 & s' & res & Hrun & _ & _ & _ & _ & _ & _ & _ & _ & Hd1 & _
        & _ & _ & Hc2 & Hbal & Hres).
  exists journal, t1, t2, s', res. tauto.
Defined.

Lemma updateAccount_reparent_witness :
  updateAccount (reparent "A" "C") abc_store = (Throw ValidationError, abc_store) /\
  exists a' s', updateAccount (reparent "A" "D") abc_store = (Ok a', s') /\
                a_parentAccountKey a' = Some "D".
Proof.
  split.
  - destruct (updateAccount_reparent (reparent "A" "C") "A" "C" abc_store
                eq_refl ltac:(discriminate) eq_refl ltac:(discriminate)) as (_ & H).
    destruct (H (abc_account 2 "C" "1002" (Some "B")) eq_refl ltac:(discriminate))
      as (Hcycle & _).
    apply Hcycle. exists 1%nat. split; [unfold MAX_DEPTH; lia|reflexivity].
  - destruct (updateAccount_reparent (reparent "A" "D") "A" "D" abc_store
                eq_refl ltac:(discriminate) eq_refl ltac:(discriminate)) as (_ & H).
    destruct (H (abc_account 3 "D" "1003" None) eq_refl ltac:(discriminate))
      as (_ & _ & _ & Hfree).
    destruct (Hfree (fun n => ltac:(rewrite (ancestor_None _ _ 0 n eq_refl); discriminate))
                    (abc_account 0 "A" "1000" None) eq_refl)
      as (a' & s' & Hrun & _ & Hp & _).
    now exists a', s'.
Defined.

(** The bound of the walk at work on a chain of 103 accounts: the
    candidate 101 hops above the parent of the proposed parent is found,
    the candidate 102 hops above is not, and the reassignment that closes the
    cycle goes through. *)
Lemma validateParent_bound :
  validateParent (chain_key 101) (Some (chain_key 0)) (chain_store 103)
    = (Throw ValidationError, chain_store 103) /\
  validateParent (chain_key 102) (Some (chain_key 0)) (chain_store 103)
    = (Ok tt, chain_store 103) /\
  exists a' s', updateAccount (reparent (chain_key 102) (chain_key 0)) (chain_store 103)
                  = (Ok a', s') /\
                a_parentAccountKey a' = Some (chain_key 0).
Proof.
  split; [vm_compute; reflexivity|]. split; [vm_compute; reflexivity|].
  eexists. eexists. split; [vm_compute; reflexivity|reflexivity].
Qed.
